(** * Chrome bookmark reorganizer (bookmark_cleaner.py)

    A shallow embedding of the three parts of the program that carry its
    logic -- the path canonicalizer, the collector and the tree builder --
    and of the part of [main] that runs after the bookmark file was loaded.

    Conventions of the model.
    - Python [str] is [string]; comparison of strings is the lexicographic
      comparison of their characters ([String.leb]).
    - A Python [dict] whose iteration order can be observed is an association
      list in insertion order; its keys are pairwise distinct.
    - A Python exception that nothing catches is the result [None].
    - [uuid.uuid4] and [str.lower] are library functions, taken as section
      variables: [uuid4 n] is the text returned by the [n]-th call. *)

From Stdlib Require Import List String Ascii Bool Arith Lia.
From Stdlib Require Import Permutation Sorted OrderedTypeEx.
Import ListNotations.

Set Warnings "-register-all".

Local Open Scope string_scope.
Local Open Scope list_scope.

(** ** Configuration *)

Definition DESTINATION_ROOT_NAME : string := "bookmark_bar".

Definition CHROME_ROOT_NAMES : list string :=
  ["Bookmarks Bar"; "Other Bookmarks"; "Mobile Bookmarks";
   "Managed Bookmarks"; "Reading list"].

Definition MAX_RECURSION_DEPTH : nat := 100.

(** [x in names], for a set or a list of strings. *)
Definition in_names (x : string) (names : list string) : bool :=
  existsb (String.eqb x) names.

Definition is_chrome_root (x : string) : bool := in_names x CHROME_ROOT_NAMES.

(** ** Path canonicalizer *)

Module Canonicalizer.

(** One turn of the first loop of [get_canonical_path_segments]; [user] is
    [user_defined_path_parts]. *)
Definition filter_step (user : list string) (part : string) : list string :=
  if negb (is_chrome_root part) then user ++ [part]
  else match user with
       | [] => user
       | _ :: _ => user ++ [part]
       end.

Definition user_defined_path_parts (original : list string) : list string :=
  fold_left filter_step original [].

(** The backward loop: [rparts] are the user-defined parts still to visit,
    nearest ancestor first; the loop ends at the first name already seen. *)
Fixpoint dedup_scan (rparts final seen : list string) : list string :=
  match rparts with
  | [] => final
  | current_folder_name :: rest =>
      if negb (in_names current_folder_name seen)
      then dedup_scan rest (current_folder_name :: final)
                      (current_folder_name :: seen)
      else final
  end.

Definition get_canonical_path_segments (original : list string) : list string :=
  let user := user_defined_path_parts original in
  match user, original with
  | [], first :: _ => [first]
  | _, _ => dedup_scan (rev user) [] []
  end.

End Canonicalizer.

(** ** Data model *)

(** A JSON object of the bookmark document, reduced to the keys the program
    reads or writes.  A key the object does not have is [None]; a key it has
    holds a string, and [children] a list of objects, which is the shape
    the loader is specified to deliver.  A URL entry, a folder and a root
    container are all objects of this shape, told apart by [type] only, as
    in the source. *)
Inductive node : Type :=
  Node (type name url guid date_added date_modified : option string)
       (children : option (list node)).

Definition node_type (nd : node) : option string :=
  let 'Node t _ _ _ _ _ _ := nd in t.
Definition node_name (nd : node) : option string :=
  let 'Node _ n _ _ _ _ _ := nd in n.
Definition node_url (nd : node) : option string :=
  let 'Node _ _ u _ _ _ _ := nd in u.
Definition node_guid (nd : node) : option string :=
  let 'Node _ _ _ g _ _ _ := nd in g.
Definition node_date_added (nd : node) : option string :=
  let 'Node _ _ _ _ d _ _ := nd in d.
Definition node_children (nd : node) : option (list node) :=
  let 'Node _ _ _ _ _ _ c := nd in c.

(** [d.get(key, default)] on an optional field. *)
Definition get_or {A : Type} (field : option A) (default : A) : A :=
  match field with
  | Some v => v
  | None => default
  end.

(** [node.get("type") == tag]. *)
Definition type_is (nd : node) (tag : string) : bool :=
  match node_type nd with
  | Some t => String.eqb t tag
  | None => false
  end.

(** The record [bookmark_item] that the collector builds for an entry. *)
Record bookmark_item : Type := BookmarkItem {
  item_name : string;
  item_url : string;
  item_guid : string;
  item_date_added : string
}.

(** The same record seen as a JSON object of the document. *)
Definition item_node (b : bookmark_item) : node :=
  Node (Some "url") (Some (item_name b)) (Some (item_url b))
       (Some (item_guid b)) (Some (item_date_added b)) None None.

(** The value [collected_bookmarks] and what it holds: a dict from folder
    names to dicts, where the key ["_bookmarks"] holds a list of items.
    Python does not keep the two kinds of values apart, and neither does
    this type: a folder called ["_bookmarks"] puts a dict under that key. *)
Inductive merged : Type :=
| MDict (entries : list (string * merged))
| MList (items : list bookmark_item).

Definition BOOKMARKS_KEY : string := "_bookmarks".

(** Truth value of a dict or a list: empty is false. *)
Definition truthy (m : merged) : bool :=
  match m with
  | MDict [] | MList [] => false
  | _ => true
  end.

Section Dict.
Context {V : Type}.

(** [d[k]] when [k in d]. *)
Fixpoint dict_get (k : string) (d : list (string * V)) : option V :=
  match d with
  | [] => None
  | (k', v) :: rest => if String.eqb k k' then Some v else dict_get k rest
  end.

(** [k in d]. *)
Definition dict_has (k : string) (d : list (string * V)) : bool :=
  match dict_get k d with
  | Some _ => true
  | None => false
  end.

(** [d[k] = v]: an existing key keeps its place, a new key goes last. *)
Fixpoint dict_set (k : string) (v : V) (d : list (string * V))
  : list (string * V) :=
  match d with
  | [] => [(k, v)]
  | (k', v') :: rest =>
      if String.eqb k k' then (k', v) :: rest
      else (k', v') :: dict_set k v rest
  end.
End Dict.

(** ** Collector *)

Record collector_state : Type := CollectorState {
  collected_bookmarks : merged;
  seen_urls : list string;
  uuid_calls : nat
}.

(** Lines 155-165: walk [collected_bookmarks] along [canonical_path],
    creating the missing levels, and append the item at the leaf.  [None]
    is the [TypeError] or [AttributeError] Python raises when a level is a
    list, or when the leaf's ["_bookmarks"] is a dict. *)
Fixpoint file_item (canonical_path : list string) (bookmark : bookmark_item)
         (current_level : merged) : option merged :=
  match current_level with
  | MList _ => None
  | MDict entries =>
      match canonical_path with
      | [] =>
          match get_or (dict_get BOOKMARKS_KEY entries) (MList []) with
          | MList items =>
              Some (MDict (dict_set BOOKMARKS_KEY (MList (items ++ [bookmark]))
                                    entries))
          | MDict _ => None
          end
      | segment :: rest =>
          match file_item rest bookmark
                          (get_or (dict_get segment entries) (MDict [])) with
          | Some level' => Some (MDict (dict_set segment level' entries))
          | None => None
          end
      end
  end.

(** [not url or url.startswith("javascript:")]. *)
Definition skipped_url (url : option string) : bool :=
  match url with
  | None => true
  | Some u => String.eqb u "" || String.prefix "javascript:" u
  end.

Section Collector.
Variable uuid4 : nat -> string.

Definition new_bookmark_item (nd : node) (url : string) (calls : nat)
  : bookmark_item :=
  {| item_name := get_or (node_name nd) "No Name";
     item_url := url;
     item_guid := uuid4 calls;
     item_date_added := get_or (node_date_added nd) "0" |}.

(** The branch [node_type == "url"]. *)
Definition collect_url (nd : node) (current_path_parts : list string)
           (st : collector_state) : option collector_state :=
  if skipped_url (node_url nd) then Some st
  else
    let url := get_or (node_url nd) "" in
    if in_names url (seen_urls st) then Some st
    else
      let bookmark := new_bookmark_item nd url (uuid_calls st) in
      let canonical_path :=
        Canonicalizer.get_canonical_path_segments current_path_parts in
      match file_item canonical_path bookmark (collected_bookmarks st) with
      | Some collected' =>
          Some {| collected_bookmarks := collected';
                  seen_urls := url :: seen_urls st;
                  uuid_calls := S (uuid_calls st) |}
      | None => None
      end.

(** [next_path_parts] of the branch [node_type == "folder"]. *)
Definition next_path_parts (nd : node) (current_path_parts : list string)
  : list string :=
  match node_name nd with
  | Some (String _ _ as folder_name) => current_path_parts ++ [folder_name]
  | _ => current_path_parts
  end.

Fixpoint collect_bookmarks_recursively (nd : node)
         (current_path_parts : list string) (depth : nat)
         (st : collector_state) {struct nd} : option collector_state :=
  if Nat.ltb MAX_RECURSION_DEPTH depth then Some st
  else if type_is nd "url" then collect_url nd current_path_parts st
  else if type_is nd "folder" then
    let next := next_path_parts nd current_path_parts in
    match nd with
    | Node _ _ _ _ _ _ None => Some st (* [node.get("children", [])] *)
    | Node _ _ _ _ _ _ (Some children) =>
        (fix each (cs : list node) (st : collector_state) {struct cs} :=
           match cs with
           | [] => Some st
           | child :: cs' =>
               match collect_bookmarks_recursively child next (S depth) st with
               | Some st' => each cs' st'
               | None => None
               end
           end) children st
    end
  else Some st.

(** The loop of [main] over [roots.items()]. *)
Fixpoint scan_roots (roots : list (string * node)) (st : collector_state)
  : option collector_state :=
  match roots with
  | [] => Some st
  | (root_name, root_node) :: rest =>
      if is_chrome_root root_name then
        match collect_bookmarks_recursively root_node [root_name] 0 st with
        | Some st' => scan_roots rest st'
        | None => None
        end
      else scan_roots rest st
  end.
End Collector.

(** ** Tree builder *)

Section Sorting.
Context {A : Type}.
Variable key : A -> string.

(** [sorted(l, key=key)].  Python's sort is stable and compares keys with
    [<] only: [x], which stood before every element of [l], goes in front
    of the first element whose key is not smaller than its own. *)
Fixpoint insert_by (x : A) (l : list A) : list A :=
  match l with
  | [] => [x]
  | y :: l' =>
      if String.leb (key x) (key y) then x :: y :: l'
      else y :: insert_by x l'
  end.

Fixpoint sorted_by (l : list A) : list A :=
  match l with
  | [] => []
  | x :: l' => insert_by x (sorted_by l')
  end.
End Sorting.

(** A computation that draws identifiers: from the number of calls of
    [uuid4] made so far to its result and the new number of calls. *)
Definition builder : Type := nat -> option (list node * nat).

Definition folder_record (folder_name : string) (folder_children : list node)
           (guid : string) : node :=
  Node (Some "folder") (Some folder_name) None (Some guid) (Some "0")
       (Some "0") (Some folder_children).

Definition is_folder_key (kv : string * builder) : bool :=
  negb (String.eqb (fst kv) BOOKMARKS_KEY).

Section Builder.
Variable uuid4 : nat -> string.
Variable lower : string -> string.

Definition folder_sort_key (kv : string * builder) : string := lower (fst kv).
Definition item_sort_key (x : bookmark_item) : string := lower (item_name x).

(** The loop [for folder_name in folder_keys]; each key comes with the
    recursive call on its content, which runs here, in sorted order. *)
Fixpoint add_folders (folder_keys : list (string * builder))
         (children_list : list node) (calls : nat)
  : option (list node * nat) :=
  match folder_keys with
  | [] => Some (children_list, calls)
  | (folder_name, folder_content) :: rest =>
      match folder_content calls with
      | None => None
      | Some (folder_children, calls') =>
          add_folders rest
            (children_list
               ++ [folder_record folder_name folder_children (uuid4 calls')])
            (S calls')
      end
  end.

(** [build_chrome_json_structure].  The recursive call is attached to each
    entry of the dict before the keys are sorted, which keeps the recursion
    structural; it is run by [add_folders] for the folder keys only.
    [None] is the exception raised on a list in the place of a dict
    ([.keys()]) or on a non-empty dict in the place of the list under
    ["_bookmarks"] ([x['name']] on a key). *)
Fixpoint build_chrome_json_structure (collected_node_dict : merged)
  : builder :=
  match collected_node_dict with
  | MList _ => fun _ => None
  | MDict entries =>
      let contents :=
        (fix each (es : list (string * merged)) : list (string * builder) :=
           match es with
           | [] => []
           | (k, v) :: es' => (k, build_chrome_json_structure v) :: each es'
           end) entries in
      let direct_bookmarks := get_or (dict_get BOOKMARKS_KEY entries) (MList []) in
      let temp_dict_for_folders := filter is_folder_key contents in
      let folder_keys := sorted_by folder_sort_key temp_dict_for_folders in
      fun calls =>
        match add_folders folder_keys [] calls with
        | None => None
        | Some (children_list, calls') =>
            if truthy direct_bookmarks then
              match direct_bookmarks with
              | MList items =>
                  Some (children_list
                          ++ map item_node (sorted_by item_sort_key items),
                        calls')
              | MDict _ => None
              end
            else Some (children_list, calls')
        end
  end.
End Builder.

(** ** The run, from the loaded document on *)

(** The parsed bookmark file: its [roots] mapping, if it has one.  The other
    top-level keys are never read or written. *)
Record document : Type := Document {
  doc_roots : option (list (string * node))
}.

Inductive outcome : Type :=
| NoRootsSection        (* "does not contain a 'roots' section" *)
| NothingCollected      (* "No bookmarks found or collected" *)
| DestinationNotFound   (* "The destination root ... was not found" *)
| Success               (* [save_bookmarks] was called *)
| Uncaught.             (* an exception ended the run *)

(** How a run ends: its message, the document object in memory at that
    point, and the document handed to [save_bookmarks], if any. *)
Record run : Type := Run {
  run_outcome : outcome;
  run_memory : document;
  run_saved : option document
}.

(** [node['children'] = cs]. *)
Definition set_children (cs : list node) (nd : node) : node :=
  let 'Node t n u g da dm _ := nd in Node t n u g da dm (Some cs).

(** One turn of the clearing loop of [main]. *)
Definition clear_root (kv : string * node) : string * node :=
  let '(root_name, root_node) := kv in
  if is_chrome_root root_name
     && match node_children root_node with Some _ => true | None => false end
  then (root_name, set_children [] root_node)
  else kv.

Definition clear_roots (roots : list (string * node)) : list (string * node) :=
  map clear_root roots.

(** [roots[DESTINATION_ROOT_NAME]["children"] = new_root_children]. *)
Definition place_children (new_root_children : list node)
           (roots : list (string * node)) : list (string * node) :=
  match dict_get DESTINATION_ROOT_NAME roots with
  | Some destination =>
      dict_set DESTINATION_ROOT_NAME
               (set_children new_root_children destination) roots
  | None => roots
  end.

Definition initial_state : collector_state :=
  {| collected_bookmarks := MDict []; seen_urls := []; uuid_calls := 0 |}.

Section Main.
Variable uuid4 : nat -> string.
Variable lower : string -> string.

(** [main] from line 263 on, for a document that was loaded. *)
Definition main (bookmark_data : document) : run :=
  let stop why := Run why bookmark_data None in
  match doc_roots bookmark_data with
  | None | Some [] => stop NoRootsSection
  | Some roots =>
      match scan_roots uuid4 roots initial_state with
      | None => stop Uncaught
      | Some st =>
          if negb (truthy (collected_bookmarks st)) then stop NothingCollected
          else
            let cleared := Document (Some (clear_roots roots)) in
            match build_chrome_json_structure uuid4 lower
                    (collected_bookmarks st) (uuid_calls st) with
            | None => Run Uncaught cleared None
            | Some (new_root_children, _) =>
                if dict_has DESTINATION_ROOT_NAME (clear_roots roots) then
                  let final :=
                    Document (Some (place_children new_root_children
                                                   (clear_roots roots))) in
                  Run Success final (Some final)
                else Run DestinationNotFound cleared None
            end
      end
  end.
End Main.

(** ** Notions the statements use *)

(** The URL entries of a tree, in document order. *)
Fixpoint node_entries (nd : node) : list node :=
  if type_is nd "url" then [nd]
  else match nd with
       | Node _ _ _ _ _ _ (Some children) => flat_map node_entries children
       | Node _ _ _ _ _ _ None => []
       end.

Definition tree_entries (tree : list node) : list node :=
  flat_map node_entries tree.

(** The URL strings of a tree, one for each entry that has one. *)
Definition tree_urls (tree : list node) : list (option string) :=
  map node_url (tree_entries tree).

(** The children list of the destination container of a document. *)
Definition destination_children (d : document) : option (list node) :=
  match doc_roots d with
  | Some roots =>
      match dict_get DESTINATION_ROOT_NAME roots with
      | Some destination => node_children destination
      | None => None
      end
  | None => None
  end.

(** The entries the collector reaches, in the order it reaches them, each
    with the path accumulated on the way ([current_path_parts]); the depth
    guard and the handling of folder names are those of
    [collect_bookmarks_recursively]. *)
Fixpoint visits (nd : node) (current_path_parts : list string) (depth : nat)
  : list (list string * node) :=
  if Nat.ltb MAX_RECURSION_DEPTH depth then []
  else if type_is nd "url" then [(current_path_parts, nd)]
  else if type_is nd "folder" then
    match nd with
    | Node _ _ _ _ _ _ None => []
    | Node _ _ _ _ _ _ (Some children) =>
        flat_map
          (fun child =>
             visits child (next_path_parts nd current_path_parts) (S depth))
          children
    end
  else [].

Definition root_visits (roots : list (string * node))
  : list (list string * node) :=
  flat_map (fun kv => if is_chrome_root (fst kv)
                      then visits (snd kv) [fst kv] 0 else []) roots.

(** All items of a merge structure. *)
Fixpoint all_items (m : merged) : list bookmark_item :=
  match m with
  | MList items => items
  | MDict entries =>
      (fix each (es : list (string * merged)) : list bookmark_item :=
         match es with
         | [] => []
         | (_, v) :: es' => all_items v ++ each es'
         end) entries
  end.



Definition direct_items (m : merged) : list bookmark_item :=
  match m with
  | MDict entries =>
      match dict_get BOOKMARKS_KEY entries with
      | Some (MList items) => items
      | _ => []
      end
  | MList _ => []
  end.


(** ASCII lower case, an instance of [str.lower] for examples. *)
Definition ascii_lower (c : ascii) : ascii :=
  let n := nat_of_ascii c in
  if Nat.leb 65 n && Nat.leb n 90 then ascii_of_nat (n + 32) else c.

Fixpoint lower_ascii (s : string) : string :=
  match s with
  | EmptyString => EmptyString
  | String c s' => String (ascii_lower c) (lower_ascii s')
  end.

(** An identifier supply for examples. *)
Definition numbered_guid (n : nat) : string :=
  String (ascii_of_nat (48 + n)) EmptyString.

(** A canonical path of two or more segments whose first segment is a
    root-marker name. *)
Definition root_led (path : list string) : bool :=
  match path with
  | first :: _ :: _ => is_chrome_root first
  | _ => false
  end.

(** ** Documents of the scenarios *)

Definition url_entry (name url : string) : node :=
  Node (Some "url") (Some name) (Some url) None None None None.

Definition folder (name : option string) (children : list node) : node :=
  Node (Some "folder") name None None None None (Some children).

(** The basic-merge scenario: the URL [u] at Bookmarks Bar > Work > A and
    again at Other Bookmarks > Work > A, in a document that also has the
    destination container.  The two root containers carry no name of their
    own, so that the accumulated paths are exactly these. *)
Definition basic_merge_roots (u name1 name2 : string)
  : list (string * node) :=
  [("bookmark_bar", folder (Some "Bookmarks bar") []);
   ("Bookmarks Bar",
    folder None [folder (Some "Work") [folder (Some "A") [url_entry name1 u]]]);
   ("Other Bookmarks",
    folder None [folder (Some "Work") [folder (Some "A") [url_entry name2 u]]])].

Definition basic_merge_document (u name1 name2 : string) : document :=
  Document (Some (basic_merge_roots u name1 name2)).

(** The entry and the tree the run makes of that document for the URL
    http://x, with the identifiers of [numbered_guid]. *)
Definition basic_merge_entry : node :=
  item_node (BookmarkItem "first" "http://x" (numbered_guid 0) "0").

Definition basic_merge_tree : list node :=
  [folder_record "Work"
     [folder_record "A" [basic_merge_entry] (numbered_guid 1)]
     (numbered_guid 2)].

(** A document without the destination container. *)
Definition no_destination_document : document :=
  Document (Some
    [("Bookmarks Bar", folder None [url_entry "Example" "http://example.org"])]).

(** A document whose only container is not a recognized root marker. *)
Definition unrecognized_roots_document : document :=
  Document (Some
    [("bookmark_bar",
      folder (Some "Bookmarks bar") [url_entry "Example" "http://example.org"])]).

(** ** Notions of the proofs *)

(** The label of a record: its name. *)
Definition node_label (nd : node) : string := get_or (node_name nd) "".


(** [l1] is contained in [l2], counting repetitions. *)
Definition sub_multiset {A : Type} (l1 l2 : list A) : Prop :=
  exists rest, Permutation (l1 ++ rest) l2.

Definition is_folder_entry (kv : string * merged) : bool :=
  negb (String.eqb (fst kv) BOOKMARKS_KEY).

(** A dict entry with the recursive call of the builder on its content. *)
Definition attach (uuid4 : nat -> string) (lower : string -> string)
           (kv : string * merged) : string * builder :=
  (fst kv, build_chrome_json_structure uuid4 lower (snd kv)).

(** [nd] is the folder record the builder makes for the dict entry [kv]. *)
Definition built_from (uuid4 : nat -> string) (lower : string -> string)
           (kv : string * merged) (nd : node) : Prop :=
  exists children calls calls',
    build_chrome_json_structure uuid4 lower (snd kv) calls
    = Some (children, calls')
    /\ nd = folder_record (fst kv) children (uuid4 calls').


(** A merge-structure level with two folders and two direct entries. *)
Definition example_level : merged :=
  MDict [("work", MDict [(BOOKMARKS_KEY,
                          MList [BookmarkItem "Tracker" "http://t" "g0" "0"])]);
         (BOOKMARKS_KEY, MList [BookmarkItem "news" "http://n" "g1" "0";
                                BookmarkItem "Mail" "http://m" "g2" "0"]);
         ("Archive", MDict [])].

(** The collector run over a list of visits: [collect_url] at each. *)
Fixpoint collect_all (uuid4 : nat -> string)
         (vs : list (list string * node)) (st : collector_state)
  : option collector_state :=
  match vs with
  | [] => Some st
  | (path, nd) :: vs' =>
      match collect_url uuid4 nd path st with
      | Some st' => collect_all uuid4 vs' st'
      | None => None
      end
  end.

(** The item [b] was made from the first visit, among [vs], of an entry with
    its URL: it has that entry's name and date, with the defaults of the
    collector. *)
Definition first_visit (vs : list (list string * node)) (b : bookmark_item)
  : Prop :=
  exists before path x after,
    vs = before ++ (path, x) :: after
    /\ skipped_url (node_url x) = false
    /\ node_url x = Some (item_url b)
    /\ (forall q y, In (q, y) before -> node_url y <> Some (item_url b))
    /\ item_name b = get_or (node_name x) "No Name"
    /\ item_date_added b = get_or (node_date_added x) "0".

(** What holds of the collector's state after the visits [vs]. *)
Definition collector_invariant (vs : list (list string * node))
           (st : collector_state) : Prop :=
  (forall q y u, In (q, y) vs -> skipped_url (node_url y) = false ->
                 node_url y = Some u -> In u (seen_urls st))
  /\ (forall b, In b (all_items (collected_bookmarks st)) ->
                first_visit vs b /\ In (item_url b) (seen_urls st))
  /\ NoDup (map item_url (all_items (collected_bookmarks st))).


(** The items below a dict entry, as records of the document. *)
Definition entry_nodes (kv : string * merged) : list node :=
  map item_node (all_items (snd kv)).

(** ** Notions of the further properties *)

(** The entry list filed at a path of the merge structure: the list under
    ["_bookmarks"] of the level reached along the path. *)
Fixpoint entries_at (path : list string) (m : merged)
  : option (list bookmark_item) :=
  match m with
  | MList _ => None
  | MDict entries =>
      match path with
      | [] =>
          match dict_get BOOKMARKS_KEY entries with
          | Some (MList items) => Some items
          | _ => None
          end
      | segment :: rest =>
          match dict_get segment entries with
          | Some level => entries_at rest level
          | None => None
          end
      end
  end.

(** The entry [e] sits in the tree [tree] in the folder reached along the
    folder names [path]. *)
Inductive located : list node -> list string -> node -> Prop :=
| located_here (tree : list node) (e : node) :
    In e tree -> type_is e "url" = true -> located tree [] e
| located_below (tree : list node) (name : string) (path : list string)
                (e f : node) (children : list node) :
    In f tree -> type_is f "folder" = true ->
    node_name f = Some name -> node_children f = Some children ->
    located children path e ->
    located tree (name :: path) e.

(** The invariant of a Python dict, at every level of a merge structure:
    no key occurs twice. *)
Inductive unique_keys : merged -> Prop :=
| unique_keys_list (items : list bookmark_item) : unique_keys (MList items)
| unique_keys_dict (entries : list (string * merged)) :
    NoDup (map fst entries) ->
    Forall (fun kv => unique_keys (snd kv)) entries ->
    unique_keys (MDict entries).

(** The merge structures on which the builder returns a tree: every folder
    key holds such a structure, and ["_bookmarks"] holds no dict with
    entries. *)
Fixpoint buildable (m : merged) : bool :=
  match m with
  | MList _ => false
  | MDict entries =>
      (fix each (es : list (string * merged)) : bool :=
         match es with
         | [] => true
         | (k, v) :: es' =>
             (String.eqb k BOOKMARKS_KEY || buildable v) && each es'
         end) entries
      && match get_or (dict_get BOOKMARKS_KEY entries) (MList []) with
         | MDict (_ :: _) => false
         | _ => true
         end
  end.

Definition buildable_entry (kv : string * merged) : bool :=
  String.eqb (fst kv) BOOKMARKS_KEY || buildable (snd kv).

(** The folder records of a children list. *)
Definition folder_records (tree : list node) : list node :=
  filter (fun nd => type_is nd "folder") tree.

(** No two folders of one level of the tree have the same name, at every
    level. *)
Inductive folders_merged : list node -> Prop :=
| folders_merged_level (tree : list node) :
    NoDup (map node_name (folder_records tree)) ->
    Forall (fun nd => forall children,
                node_children nd = Some children -> folders_merged children)
           tree ->
    folders_merged tree.

(** The folder entries of a level in the order the builder takes them. *)
Definition folder_order (lower : string -> string)
           (entries : list (string * merged)) : list (string * merged) :=
  sorted_by (fun kv => lower (fst kv)) (filter is_folder_entry entries).

(** The item [b] of the merge structure [m] was made at the first visit,
    among [vs], of an entry with its URL, and is filed at the canonical form
    of the path of that visit. *)
Definition filed_first (vs : list (list string * node)) (m : merged)
           (b : bookmark_item) : Prop :=
  exists before path x after,
    vs = before ++ (path, x) :: after
    /\ skipped_url (node_url x) = false
    /\ node_url x = Some (item_url b)
    /\ (forall q y, In (q, y) before -> node_url y <> Some (item_url b))
    /\ exists items,
        entries_at (Canonicalizer.get_canonical_path_segments path) m
        = Some items
        /\ In b items.

(** The bookkeeping of the collector: distinct keys in every dict, one seen
    URL for each item, one identifier drawn for each item. *)
Definition collector_books (st : collector_state) : Prop :=
  unique_keys (collected_bookmarks st)
  /\ Permutation (seen_urls st)
                 (map item_url (all_items (collected_bookmarks st)))
  /\ uuid_calls st = List.length (seen_urls st).

(** The document the run saves for [basic_merge_document] with the URL
    http://x and the identifiers of [numbered_guid]. *)
Definition basic_merge_saved : document :=
  Document (Some
    [("bookmark_bar",
      Node (Some "folder") (Some "Bookmarks bar") None None None None
           (Some basic_merge_tree));
     ("Bookmarks Bar", folder None []);
     ("Other Bookmarks", folder None [])]).

(** A document with a folder called ["_bookmarks"]. *)
Definition sentinel_document : document :=
  Document (Some
    [("bookmark_bar", folder (Some "Bookmarks bar") []);
     ("Bookmarks Bar",
      folder None [folder (Some "_bookmarks")
                          [url_entry "Example" "http://example.org"]])]).

(** * Properties *)

Lemma in_names_spec (x : string) (names : list string) :
  in_names x names = true <-> In x names.
Proof.
  unfold in_names. rewrite existsb_exists. split.
  - intros [y [Hin Heq]]. apply String.eqb_eq in Heq. now subst.
  - intros Hin. exists x. split; [assumption | apply String.eqb_refl].
Qed.

Lemma in_names_false (x : string) (names : list string) :
  in_names x names = false <-> ~ In x names.
Proof.
  rewrite <- in_names_spec. destruct (in_names x names); split; congruence.
Qed.

(** ** The path canonicalizer *)

Module CanonicalizerFacts.
Import Canonicalizer.

Lemma filter_started (parts acc : list string) :
  acc <> [] -> fold_left filter_step parts acc = acc ++ parts.
Proof.
  revert acc. induction parts as [|p parts IH]; intros acc Hacc; simpl.
  - now rewrite app_nil_r.
  - assert (Hstep : filter_step acc p = acc ++ [p]).
    { unfold filter_step. destruct (is_chrome_root p); simpl; [|reflexivity].
      destruct acc; [congruence | reflexivity]. }
    rewrite Hstep, IH, <- app_assoc; [reflexivity|].
    destruct acc; [congruence | discriminate].
Qed.

Lemma user_parts_root (h : string) (t : list string) :
  is_chrome_root h = true ->
  user_defined_path_parts (h :: t) = user_defined_path_parts t.
Proof.
  intros Hh. unfold user_defined_path_parts. simpl.
  unfold filter_step at 2. now rewrite Hh.
Qed.

Lemma user_parts_user (h : string) (t : list string) :
  is_chrome_root h = false -> user_defined_path_parts (h :: t) = h :: t.
Proof.
  intros Hh. unfold user_defined_path_parts. simpl.
  unfold filter_step at 2. rewrite Hh. simpl.
  now rewrite filter_started.
Qed.

Lemma user_parts_all_roots (parts : list string) :
  forallb is_chrome_root parts = true -> user_defined_path_parts parts = [].
Proof.
  induction parts as [|p parts IH]; simpl; [reflexivity|].
  intros H. apply andb_true_iff in H as [Hp Hrest].
  rewrite user_parts_root; auto.
Qed.

Lemma user_parts_length (parts : list string) :
  List.length (user_defined_path_parts parts) <= List.length parts.
Proof.
  induction parts as [|p parts IH]; [apply Nat.le_refl|].
  destruct (is_chrome_root p) eqn:Hp.
  - rewrite user_parts_root by assumption. simpl. lia.
  - rewrite user_parts_user by assumption. apply Nat.le_refl.
Qed.

Lemma dedup_scan_keeps (rparts final seen : list string) :
  exists pre, dedup_scan rparts final seen = pre ++ final.
Proof.
  revert final seen. induction rparts as [|c rest IH]; intros final seen; simpl.
  - now exists [].
  - destruct (in_names c seen); simpl.
    + now exists [].
    + destruct (IH (c :: final) (c :: seen)) as [pre Hpre].
      exists (pre ++ [c]). now rewrite Hpre, <- app_assoc.
Qed.

Lemma dedup_scan_length (rparts final seen : list string) :
  List.length (dedup_scan rparts final seen)
  <= List.length rparts + List.length final.
Proof.
  revert final seen. induction rparts as [|c rest IH]; intros final seen; simpl.
  - apply Nat.le_refl.
  - destruct (in_names c seen); simpl; [lia|].
    specialize (IH (c :: final) (c :: seen)). simpl in IH. lia.
Qed.

Lemma dedup_scan_nodup (rparts final : list string) :
  NoDup final -> NoDup (dedup_scan rparts final final).
Proof.
  revert final. induction rparts as [|c rest IH]; intros final Hnd; simpl.
  - assumption.
  - destruct (in_names c final) eqn:Hc; simpl; [assumption|].
    apply IH. constructor; [|assumption]. now apply in_names_false.
Qed.

Lemma dedup_scan_repeat_free (rparts final : list string) :
  NoDup (rev rparts ++ final) ->
  dedup_scan rparts final final = rev rparts ++ final.
Proof.
  revert final. induction rparts as [|c rest IH]; intros final Hnd; simpl.
  - reflexivity.
  - simpl in Hnd. rewrite <- app_assoc in Hnd. simpl in Hnd.
    assert (Hc : in_names c final = false).
    { apply in_names_false. intros Hin.
      apply NoDup_remove_2 in Hnd. apply Hnd, in_or_app. now right. }
    rewrite Hc. simpl. rewrite IH by assumption.
    now rewrite <- app_assoc.
Qed.

Lemma canonical_nonempty (parts : list string) :
  parts <> [] -> get_canonical_path_segments parts <> [].
Proof.
  intros Hparts. unfold get_canonical_path_segments.
  destruct (user_defined_path_parts parts) as [|u us] eqn:Huser.
  - destruct parts; [congruence | discriminate].
  - destruct (rev (u :: us)) as [|c rest] eqn:Hrev.
    + apply (f_equal (@List.length string)) in Hrev.
      rewrite length_rev in Hrev. discriminate.
    + simpl. destruct (dedup_scan_keeps rest [c] [c]) as [pre Hpre].
      rewrite Hpre. now destruct pre.
Qed.

Lemma canonical_nodup (parts : list string) :
  NoDup (get_canonical_path_segments parts).
Proof.
  unfold get_canonical_path_segments.
  destruct (user_defined_path_parts parts) as [|u us].
  - destruct parts as [|first rest]; simpl.
    + constructor.
    + constructor; [intros [] | constructor].
  - apply dedup_scan_nodup. constructor.
Qed.

Lemma canonical_single (x : string) : get_canonical_path_segments [x] = [x].
Proof.
  unfold get_canonical_path_segments.
  destruct (is_chrome_root x) eqn:Hx.
  - rewrite user_parts_root by assumption. reflexivity.
  - rewrite user_parts_user by assumption. reflexivity.
Qed.

Lemma canonical_repeat_free (h : string) (t : list string) :
  is_chrome_root h = false -> NoDup (h :: t) ->
  get_canonical_path_segments (h :: t) = h :: t.
Proof.
  intros Hh Hnd. unfold get_canonical_path_segments.
  rewrite user_parts_user by assumption.
  rewrite dedup_scan_repeat_free.
  - now rewrite app_nil_r, rev_involutive.
  - now rewrite app_nil_r, rev_involutive.
Qed.

Lemma canonical_length (parts : list string) :
  List.length (get_canonical_path_segments parts)
  <= Nat.max 1 (List.length (user_defined_path_parts parts)).
Proof.
  unfold get_canonical_path_segments.
  destruct (user_defined_path_parts parts) as [|u us] eqn:Huser.
  - destruct parts; simpl; lia.
  - pose proof (dedup_scan_length (rev (u :: us)) [] []) as H.
    rewrite length_rev in H. simpl in *. lia.
Qed.

Lemma canonical_root_led (h x : string) (t : list string) :
  is_chrome_root h = true ->
  List.length (get_canonical_path_segments (h :: x :: t))
  < List.length (h :: x :: t).
Proof.
  intros Hh.
  pose proof (canonical_length (h :: x :: t)) as Hlen.
  rewrite user_parts_root in Hlen by assumption.
  pose proof (user_parts_length (x :: t)) as Hu.
  remember (List.length (user_defined_path_parts (x :: t))) as n.
  remember (List.length (get_canonical_path_segments (h :: x :: t))) as k.
  cbn [List.length] in *. lia.
Qed.

End CanonicalizerFacts.

Import Canonicalizer.

(** C4, as the code has it.  Canonicalizing a canonical path gives it back
    exactly when that path is not root-led, that is, unless it has two or
    more segments and starts with a root-marker name.  (Such a canonical path
    arises when a root-marker name stands in the middle of the original path
    and the repeat collapse cuts just before it.) *)
Theorem canonical_idempotent_iff_not_root_led (p : list string) :
  p <> [] ->
  get_canonical_path_segments (get_canonical_path_segments p)
  = get_canonical_path_segments p
  <-> root_led (get_canonical_path_segments p) = false.
Proof.
  intros Hp.
  pose proof (CanonicalizerFacts.canonical_nonempty p Hp) as Hne.
  pose proof (CanonicalizerFacts.canonical_nodup p) as Hnd.
  destruct (get_canonical_path_segments p) as [|h [|x t]]; [congruence| |].
  - rewrite CanonicalizerFacts.canonical_single. simpl. tauto.
  - simpl. destruct (is_chrome_root h) eqn:Hh.
    + pose proof (CanonicalizerFacts.canonical_root_led h x t Hh) as Hlt.
      split; [|discriminate].
      intros Heq. rewrite Heq in Hlt. exfalso. revert Hlt. apply Nat.lt_irrefl.
    + split; [reflexivity|]. intros _.
      now apply CanonicalizerFacts.canonical_repeat_free.
Qed.

Lemma canonical_idempotent_iff_not_root_led_witness :
  ["Bookmarks Bar"; "A"; "B"; "A"] <> []
  /\ (get_canonical_path_segments
        (get_canonical_path_segments ["Bookmarks Bar"; "A"; "B"; "A"])
      = get_canonical_path_segments ["Bookmarks Bar"; "A"; "B"; "A"]
      <-> root_led (get_canonical_path_segments
                      ["Bookmarks Bar"; "A"; "B"; "A"]) = false).
Proof.
  split; [discriminate|].
  apply (canonical_idempotent_iff_not_root_led
           ["Bookmarks Bar"; "A"; "B"; "A"]).
  discriminate.
Defined.

(** C4 as stated fails: the path B > Other Bookmarks > B under the bookmarks
    bar canonicalizes to Other Bookmarks > B, and that to B. *)
Lemma canonical_not_idempotent :
  ~ (forall p : list string,
        p <> [] ->
        get_canonical_path_segments (get_canonical_path_segments p)
        = get_canonical_path_segments p).
Proof.
  intros H.
  specialize (H ["Bookmarks Bar"; "B"; "Other Bookmarks"; "B"]).
  vm_compute in H. specialize (H ltac:(discriminate)). discriminate H.
Qed.



(** C6.  [get_canonical_path_segments] is a total function, and on a
    non-empty path its result has a first segment. *)
Theorem canonical_path_nonempty (p : list string) :
  p <> [] ->
  exists first rest, get_canonical_path_segments p = first :: rest.
Proof.
  intros Hp. pose proof (CanonicalizerFacts.canonical_nonempty p Hp) as Hne.
  destruct (get_canonical_path_segments p) as [|first rest]; [congruence|].
  now exists first, rest.
Qed.

Lemma canonical_path_nonempty_witness :
  exists first rest,
    get_canonical_path_segments ["Bookmarks Bar"; "Other Bookmarks"]
    = first :: rest.
Proof.
  apply (canonical_path_nonempty ["Bookmarks Bar"; "Other Bookmarks"]).
  discriminate.
Defined.

(** C7.  A non-empty path made of root-marker names only canonicalizes to
    its first segment alone. *)
Theorem root_only_collapse (first : string) (rest : list string) :
  forallb is_chrome_root (first :: rest) = true ->
  get_canonical_path_segments (first :: rest) = [first].
Proof.
  intros Hroots. unfold get_canonical_path_segments.
  now rewrite CanonicalizerFacts.user_parts_all_roots.
Qed.

Lemma root_only_collapse_witness :
  get_canonical_path_segments ["Bookmarks Bar"] = ["Bookmarks Bar"].
Proof.
  apply (root_only_collapse "Bookmarks Bar" []). reflexivity.
Defined.

(** ** The run *)

Lemma clear_root_key (kv : string * node) : fst (clear_root kv) = fst kv.
Proof.
  destruct kv as [k nd]. unfold clear_root.
  now destruct (is_chrome_root k && _).
Qed.

Lemma clear_roots_keys (k : string) (roots : list (string * node)) :
  dict_has k (clear_roots roots) = dict_has k roots.
Proof.
  unfold dict_has. induction roots as [|[k' nd] roots IH]; [reflexivity|].
  change (clear_roots ((k', nd) :: roots))
    with (clear_root (k', nd) :: clear_roots roots).
  pose proof (clear_root_key (k', nd)) as Hfst.
  destruct (clear_root (k', nd)) as [k'' nd'].
  simpl in Hfst. subst k''. simpl.
  destruct (String.eqb k k'); [reflexivity | exact IH].
Qed.

(** C10.  When the scan of the recognized root containers ends with an empty
    merge structure, the run stops with the document as it was loaded, and
    nothing is handed to [save_bookmarks]. *)
Theorem nothing_collected_leaves_document
        (uuid4 : nat -> string) (lower : string -> string)
        (bookmark_data : document) (roots : list (string * node))
        (st : collector_state) :
  doc_roots bookmark_data = Some roots ->
  roots <> [] ->
  scan_roots uuid4 roots initial_state = Some st ->
  collected_bookmarks st = MDict [] ->
  main uuid4 lower bookmark_data = Run NothingCollected bookmark_data None.
Proof.
  intros Hroots Hne Hscan Hempty. unfold main.
  rewrite Hroots. destruct roots as [|r roots']; [congruence|].
  rewrite Hscan, Hempty. reflexivity.
Qed.

Lemma nothing_collected_leaves_document_witness :
  main numbered_guid lower_ascii unrecognized_roots_document
  = Run NothingCollected unrecognized_roots_document None.
Proof.
  apply (nothing_collected_leaves_document numbered_guid lower_ascii
           unrecognized_roots_document
           [("bookmark_bar",
             folder (Some "Bookmarks bar")
                    [url_entry "Example" "http://example.org"])]
           initial_state);
    [reflexivity | discriminate | reflexivity | reflexivity].
Defined.

(** C3, as the code has it.  Without the destination container in [roots]
    the run never calls [save_bookmarks] and never ends in success; when
    bookmarks were collected and the tree was built, it ends with the
    destination error, the children of the recognized root containers
    having been cleared in the document object in memory. *)
Theorem missing_destination_never_saves
        (uuid4 : nat -> string) (lower : string -> string)
        (bookmark_data : document) (roots : list (string * node)) :
  doc_roots bookmark_data = Some roots ->
  dict_has DESTINATION_ROOT_NAME roots = false ->
  run_saved (main uuid4 lower bookmark_data) = None
  /\ run_outcome (main uuid4 lower bookmark_data) <> Success
  /\ (forall st tree calls,
         scan_roots uuid4 roots initial_state = Some st ->
         truthy (collected_bookmarks st) = true ->
         build_chrome_json_structure uuid4 lower (collected_bookmarks st)
                                     (uuid_calls st) = Some (tree, calls) ->
         main uuid4 lower bookmark_data
         = Run DestinationNotFound (Document (Some (clear_roots roots))) None).
Proof.
  intros Hroots Hdest. unfold main. rewrite Hroots.
  destruct roots as [|r roots'].
  { simpl. repeat split; try discriminate.
    intros st tree calls Hst Htruthy. inversion Hst; subst st. discriminate. }
  remember (r :: roots') as roots.
  rewrite clear_roots_keys, Hdest.
  destruct (scan_roots uuid4 roots initial_state) as [st|].
  2:{ simpl. repeat split; discriminate. }
  destruct (truthy (collected_bookmarks st)) eqn:Htruthy; simpl.
  - destruct (build_chrome_json_structure uuid4 lower (collected_bookmarks st)
                (uuid_calls st)) as [[tree calls]|] eqn:Hbuild; simpl.
    + repeat split; try discriminate.
    + repeat split; try discriminate.
      intros st' tree calls Hst. inversion Hst; subst st'. congruence.
  - repeat split; try discriminate.
    intros st' tree calls Hst. inversion Hst; subst st'. congruence.
Qed.

Lemma missing_destination_never_saves_witness :
  run_saved (main numbered_guid lower_ascii no_destination_document) = None
  /\ run_outcome (main numbered_guid lower_ascii no_destination_document)
     <> Success
  /\ (forall st tree calls,
         scan_roots numbered_guid
           [("Bookmarks Bar",
             folder None [url_entry "Example" "http://example.org"])]
           initial_state = Some st ->
         truthy (collected_bookmarks st) = true ->
         build_chrome_json_structure numbered_guid lower_ascii
           (collected_bookmarks st) (uuid_calls st) = Some (tree, calls) ->
         main numbered_guid lower_ascii no_destination_document
         = Run DestinationNotFound
               (Document (Some (clear_roots
                  [("Bookmarks Bar",
                    folder None [url_entry "Example" "http://example.org"])])))
               None).
Proof.
  apply (missing_destination_never_saves numbered_guid lower_ascii
           no_destination_document
           [("Bookmarks Bar",
             folder None [url_entry "Example" "http://example.org"])]);
    reflexivity.
Defined.

(** C3 as stated fails: in a document without the destination container,
    the children list of Bookmarks Bar is cleared before the run reports the
    missing destination. *)
Lemma missing_destination_clears_first :
  dict_has DESTINATION_ROOT_NAME
    [("Bookmarks Bar", folder None [url_entry "Example" "http://example.org"])]
  = false
  /\ main numbered_guid lower_ascii no_destination_document
     = Run DestinationNotFound
           (Document (Some [("Bookmarks Bar", folder None [])])) None
  /\ run_memory (main numbered_guid lower_ascii no_destination_document)
     <> no_destination_document.
Proof.
  repeat split. discriminate.
Qed.

(** C1, as the code has it.  In the basic-merge scenario, for every URL the
    collector accepts, both paths canonicalize to Work > A with the
    root-marker name dropped, and the destination tree holds one entry for
    the URL, the copy from Bookmarks Bar, in the folder A of the folder Work
    at the top of the tree. *)
Theorem basic_merge_keeps_first_copy
        (uuid4 : nat -> string) (lower : string -> string)
        (u name1 name2 : string) :
  skipped_url (Some u) = false ->
  get_canonical_path_segments ["Bookmarks Bar"; "Work"; "A"] = ["Work"; "A"]
  /\ get_canonical_path_segments ["Other Bookmarks"; "Work"; "A"]
     = ["Work"; "A"]
  /\ exists d,
      run_saved (main uuid4 lower (basic_merge_document u name1 name2))
      = Some d
      /\ destination_children d
         = Some [folder_record "Work"
                   [folder_record "A"
                      [item_node (BookmarkItem name1 u (uuid4 0) "0")]
                      (uuid4 1)]
                   (uuid4 2)].
Proof.
  intros Hu. split; [reflexivity|]. split; [reflexivity|].
  unfold main, basic_merge_document. cbn -[skipped_url].
  unfold collect_url. cbn -[skipped_url].
  rewrite Hu. cbn -[skipped_url].
  rewrite String.eqb_refl. cbn.
  eexists. split; reflexivity.
Qed.

Lemma basic_merge_keeps_first_copy_witness :
  get_canonical_path_segments ["Bookmarks Bar"; "Work"; "A"] = ["Work"; "A"]
  /\ get_canonical_path_segments ["Other Bookmarks"; "Work"; "A"]
     = ["Work"; "A"]
  /\ exists d,
      run_saved (main numbered_guid lower_ascii
                      (basic_merge_document "http://x" "first" "second"))
      = Some d
      /\ destination_children d
         = Some [folder_record "Work"
                   [folder_record "A"
                      [item_node (BookmarkItem "first" "http://x"
                                               (numbered_guid 0) "0")]
                      (numbered_guid 1)]
                   (numbered_guid 2)].
Proof.
  apply (basic_merge_keeps_first_copy numbered_guid lower_ascii
           "http://x" "first" "second").
  reflexivity.
Defined.

(** C1 as stated fails: in the scenario with the URL http://x the saved
    destination tree has one entry, not two. *)
Lemma basic_merge_not_two_entries :
  exists d tree,
    run_saved (main numbered_guid lower_ascii
                    (basic_merge_document "http://x" "first" "second"))
    = Some d
    /\ destination_children d = Some tree
    /\ tree_urls tree = [Some "http://x"]
    /\ List.length (tree_entries tree) <> 2.
Proof.
  eexists. eexists. split; [reflexivity|]. split; [reflexivity|].
  split; [reflexivity | discriminate].
Qed.

(** ** Sorting *)

Module SortFacts.




Section Sorted.
Context {A : Type}.
Variable key : A -> string.

Lemma insert_by_perm (x : A) (l : list A) :
  Permutation (insert_by key x l) (x :: l).
Proof.
  induction l as [|y l IH]; simpl; [reflexivity|].
  destruct (String.leb (key x) (key y)); [reflexivity|].
  rewrite IH. apply perm_swap.
Qed.

Lemma sorted_by_perm (l : list A) : Permutation (sorted_by key l) l.
Proof.
  induction l as [|x l IH]; simpl; [reflexivity|].
  rewrite insert_by_perm. now constructor.
Qed.



End Sorted.

Lemma insert_by_map {A B : Type} (f : A -> B) (key : B -> string)
      (x : A) (l : list A) :
  insert_by key (f x) (map f l) = map f (insert_by (fun a => key (f a)) x l).
Proof.
  induction l as [|y l IH]; simpl; [reflexivity|].
  destruct (String.leb (key (f x)) (key (f y))); simpl; [reflexivity|].
  now rewrite IH.
Qed.

Lemma sorted_by_map {A B : Type} (f : A -> B) (key : B -> string)
      (l : list A) :
  sorted_by key (map f l) = map f (sorted_by (fun a => key (f a)) l).
Proof.
  induction l as [|x l IH]; simpl; [reflexivity|].
  now rewrite IH, insert_by_map.
Qed.

Lemma filter_map_comm {A B : Type} (f : A -> B) (p : B -> bool) (l : list A) :
  filter p (map f l) = map f (filter (fun a => p (f a)) l).
Proof.
  induction l as [|x l IH]; simpl; [reflexivity|].
  destruct (p (f x)); simpl; now rewrite IH.
Qed.


End SortFacts.

(** ** The tree builder *)

Module BuilderFacts.

Lemma merged_induction (P : merged -> Prop) :
  (forall items, P (MList items)) ->
  (forall entries, Forall (fun kv => P (snd kv)) entries -> P (MDict entries)) ->
  forall m, P m.
Proof.
  intros Hlist Hdict. fix IH 1. intros [entries | items].
  - apply Hdict. induction entries as [|[k v] es IHes]; constructor.
    + apply IH.
    + exact IHes.
  - apply Hlist.
Qed.

Lemma dict_get_in {V : Type} (k : string) (d : list (string * V)) (v : V) :
  dict_get k d = Some v -> In (k, v) d.
Proof.
  induction d as [|[k' v'] d IH]; simpl; [discriminate|].
  destruct (String.eqb k k') eqn:Hk.
  - apply String.eqb_eq in Hk. intros H. inversion H. subst. now left.
  - intros H. right. auto.
Qed.


Section Build.
Variable lower : string -> string.

Lemma build_dict (uuid4 : nat -> string) (entries : list (string * merged))
      (calls : nat) :
  build_chrome_json_structure uuid4 lower (MDict entries) calls
  = match add_folders uuid4
            (map (attach uuid4 lower)
                 (sorted_by (fun kv => lower (fst kv))
                            (filter is_folder_entry entries)))
            [] calls with
    | None => None
    | Some (children_list, calls') =>
        match get_or (dict_get BOOKMARKS_KEY entries) (MList []) with
        | MList [] | MDict [] => Some (children_list, calls')
        | MList items =>
            Some (children_list
                    ++ map item_node (sorted_by (item_sort_key lower) items),
                  calls')
        | MDict _ => None
        end
    end.
Proof.
  simpl.
  assert (Heach :
    (fix each (es : list (string * merged)) : list (string * builder) :=
       match es with
       | [] => []
       | (k, v) :: es' =>
           (k, build_chrome_json_structure uuid4 lower v) :: each es'
       end) entries = map (attach uuid4 lower) entries).
  { induction entries as [|[k v] es IH]; simpl; [reflexivity|].
    now rewrite IH. }
  rewrite Heach, SortFacts.filter_map_comm, SortFacts.sorted_by_map.
  change (fun a => is_folder_key (attach uuid4 lower a)) with is_folder_entry.
  change (fun a => folder_sort_key lower (attach uuid4 lower a))
    with (fun kv : string * merged => lower (fst kv)).
  destruct (add_folders uuid4 _ [] calls) as [[children_list calls']|];
    [|reflexivity].
  destruct (get_or (dict_get BOOKMARKS_KEY entries) (MList []))
    as [[|e es]|[|b items]]; reflexivity.
Qed.

Lemma add_folders_spec (uuid4 : nat -> string) (es : list (string * merged))
      (acc : list node) (calls : nat) (tree : list node) (calls' : nat) :
  add_folders uuid4 (map (attach uuid4 lower) es) acc calls
  = Some (tree, calls') ->
  exists fs, tree = acc ++ fs /\ Forall2 (built_from uuid4 lower) es fs.
Proof.
  revert acc calls. induction es as [|[k v] es IH]; intros acc calls; simpl.
  - intros H. inversion H; subst. exists []. now rewrite app_nil_r.
  - destruct (build_chrome_json_structure uuid4 lower v calls)
      as [[children calls1]|] eqn:Hv; [|discriminate].
    intros H. apply IH in H as [fs [-> Hfs]].
    exists (folder_record k children (uuid4 calls1) :: fs).
    rewrite <- app_assoc. split; [reflexivity|].
    constructor; [|exact Hfs]. now exists children, calls, calls1.
Qed.

Lemma add_folders_total (uuid4 : nat -> string) (es : list (string * merged))
      (acc : list node) (calls : nat) :
  Forall (fun kv => forall c, exists t c',
              build_chrome_json_structure uuid4 lower (snd kv) c = Some (t, c'))
         es ->
  exists tree calls',
    add_folders uuid4 (map (attach uuid4 lower) es) acc calls
    = Some (tree, calls').
Proof.
  intros Hall. revert acc calls.
  induction Hall as [|[k v] es Hv _ IH]; intros acc calls; simpl.
  - now exists acc, calls.
  - destruct (Hv calls) as [t [c' Ht]]. simpl in Ht. rewrite Ht. apply IH.
Qed.

Lemma built_from_label (uuid4 : nat -> string) (es : list (string * merged))
      (fs : list node) :
  Forall2 (built_from uuid4 lower) es fs ->
  map node_label fs = map fst es
  /\ Forall (fun nd => type_is nd "folder" = true) fs.
Proof.
  induction 1 as [|kv nd es fs (children & c & c' & _ & ->) _ [IH1 IH2]].
  - split; constructor.
  - split; [simpl; now rewrite IH1 | constructor; [reflexivity | exact IH2]].
Qed.

End Build.
End BuilderFacts.

Module BuilderOrder.
Import BuilderFacts.

Section Order.
Variable lower : string -> string.

Lemma folder_entries_in (entries : list (string * merged))
      (kv : string * merged) :
  In kv (sorted_by (fun kv => lower (fst kv)) (filter is_folder_entry entries))
  -> In kv entries /\ is_folder_entry kv = true.
Proof.
  intros Hin. apply filter_In.
  eapply Permutation_in; [apply SortFacts.sorted_by_perm | exact Hin].
Qed.







End Order.
End BuilderOrder.



(** ** Containment of lists with repetitions *)

Module Multiset.
Section Facts.
Context {A : Type}.

Lemma sub_refl (l : list A) : sub_multiset l l.
Proof. exists []. now rewrite app_nil_r. Qed.

Lemma sub_nil (l : list A) : sub_multiset [] l.
Proof. now exists l. Qed.

Lemma sub_app (a b c d : list A) :
  sub_multiset a b -> sub_multiset c d -> sub_multiset (a ++ c) (b ++ d).
Proof.
  intros [r1 H1] [r2 H2]. exists (r1 ++ r2).
  rewrite <- H1, <- H2, <- !app_assoc.
  apply Permutation_app_head. rewrite !app_assoc.
  apply Permutation_app_tail, Permutation_app_comm.
Qed.

Lemma sub_perm (a a' b b' : list A) :
  Permutation a a' -> Permutation b b' ->
  sub_multiset a b -> sub_multiset a' b'.
Proof.
  intros Ha Hb [r H]. exists r. now rewrite <- Ha, <- Hb.
Qed.

Lemma sub_trans (a b c : list A) :
  sub_multiset a b -> sub_multiset b c -> sub_multiset a c.
Proof.
  intros [r1 H1] [r2 H2]. exists (r1 ++ r2).
  now rewrite app_assoc, H1.
Qed.

Lemma sub_in (a b : list A) (x : A) :
  sub_multiset a b -> In x a -> In x b.
Proof.
  intros [r H] Hin. eapply Permutation_in; [exact H|].
  apply in_or_app. now left.
Qed.

Lemma sub_nodup_map {B : Type} (f : A -> B) (a b : list A) :
  sub_multiset a b -> NoDup (map f b) -> NoDup (map f a).
Proof.
  intros [r H] Hnd.
  apply (Permutation_map f) in H. rewrite map_app in H.
  apply (Permutation_NoDup (Permutation_sym H)) in Hnd.
  now apply NoDup_app_remove_r in Hnd.
Qed.

Lemma sub_filter_flat_map {B : Type} (g : B -> list A) (p : B -> bool)
      (l : list B) :
  sub_multiset (flat_map g (filter p l)) (flat_map g l).
Proof.
  induction l as [|x l IH]; simpl; [apply sub_refl|].
  destruct (p x); simpl.
  - apply sub_app; [apply sub_refl | exact IH].
  - apply (sub_app [] (g x)); [apply sub_nil | exact IH].
Qed.

End Facts.

Lemma map_flat_map {A B C : Type} (f : B -> C) (g : A -> list B)
      (l : list A) :
  map f (flat_map g l) = flat_map (fun x => map f (g x)) l.
Proof.
  induction l as [|x l IH]; simpl; [reflexivity|].
  now rewrite map_app, IH.
Qed.

Lemma nodup_map_some {A : Type} (l : list A) :
  NoDup l -> NoDup (map Some l).
Proof.
  induction 1 as [|x l Hnotin _ IH]; simpl; constructor; [|exact IH].
  intros Hin. apply in_map_iff in Hin as [y [Hy Hin]].
  inversion Hy; subst. contradiction.
Qed.


End Multiset.

(** ** The entries of a built tree *)

Module BuilderEntries.
Import BuilderFacts Multiset.

Lemma all_items_dict (entries : list (string * merged)) :
  all_items (MDict entries) = flat_map (fun kv => all_items (snd kv)) entries.
Proof.
  induction entries as [|[k v] es IH]; [reflexivity|].
  simpl in *. now rewrite IH.
Qed.

Lemma tree_entries_items (items : list bookmark_item) :
  tree_entries (map item_node items) = map item_node items.
Proof.
  unfold tree_entries. induction items as [|b items IH]; [reflexivity|].
  simpl in *. now rewrite IH.
Qed.

Lemma tree_entries_app (t1 t2 : list node) :
  tree_entries (t1 ++ t2) = tree_entries t1 ++ tree_entries t2.
Proof. apply flat_map_app. Qed.

Lemma tree_entries_folder (k : string) (children : list node) (g : string)
      (rest : list node) :
  tree_entries (folder_record k children g :: rest)
  = tree_entries children ++ tree_entries rest.
Proof. reflexivity. Qed.

(** The entries handed on at one level: the direct ones and those of the
    folder keys are among the entries of all keys. *)
Lemma direct_and_folders {X : Type} (g : merged -> list X)
      (entries : list (string * merged)) :
  g (MList []) = [] ->
  sub_multiset
    (g (get_or (dict_get BOOKMARKS_KEY entries) (MList []))
       ++ flat_map (fun kv => g (snd kv)) (filter is_folder_entry entries))
    (flat_map (fun kv => g (snd kv)) entries).
Proof.
  intros Hnil. induction entries as [|[k v] es IH].
  - simpl. rewrite Hnil. apply sub_refl.
  - change (dict_get BOOKMARKS_KEY ((k, v) :: es))
      with (if String.eqb BOOKMARKS_KEY k then Some v
            else dict_get BOOKMARKS_KEY es).
    change (filter is_folder_entry ((k, v) :: es))
      with (if negb (String.eqb k BOOKMARKS_KEY)
            then (k, v) :: filter is_folder_entry es
            else filter is_folder_entry es).
    rewrite (String.eqb_sym k).
    destruct (String.eqb BOOKMARKS_KEY k); cbn [negb get_or flat_map snd].
    + apply sub_app; [apply sub_refl | apply sub_filter_flat_map].
    + eapply sub_perm;
        [apply Permutation_app_swap_app | reflexivity |].
      apply sub_app; [apply sub_refl | exact IH].
Qed.

Section Entries.
Variable uuid4 : nat -> string.
Variable lower : string -> string.

Lemma built_from_entries (es : list (string * merged)) (fs : list node) :
  Forall (fun kv => forall calls tree calls',
            build_chrome_json_structure uuid4 lower (snd kv) calls
            = Some (tree, calls') ->
            sub_multiset (tree_entries tree) (entry_nodes kv)) es ->
  Forall2 (built_from uuid4 lower) es fs ->
  sub_multiset (tree_entries fs) (flat_map entry_nodes es).
Proof.
  intros Hall H2.
  induction H2 as [|kv nd es fs (children & c & c' & Hb & ->) _ IH].
  - apply sub_refl.
  - inversion Hall as [|? ? Hkv Hes]; subst.
    rewrite tree_entries_folder. cbn [flat_map].
    apply sub_app; [exact (Hkv _ _ _ Hb) | exact (IH Hes)].
Qed.

Lemma build_entries (m : merged) :
  forall calls tree calls',
    build_chrome_json_structure uuid4 lower m calls = Some (tree, calls') ->
    sub_multiset (tree_entries tree) (map item_node (all_items m)).
Proof.
  induction m as [items | entries IH] using merged_induction;
    [discriminate|].
  intros calls tree calls'. rewrite build_dict.
  set (es := sorted_by (fun kv => lower (fst kv))
                       (filter is_folder_entry entries)).
  destruct (add_folders uuid4 (map (attach uuid4 lower) es) [] calls)
    as [[fs k]|] eqn:Hfs; [|discriminate].
  apply add_folders_spec in Hfs as [fs' [-> Hbuilt]]. simpl app.
  assert (Hfolders :
            sub_multiset (tree_entries fs')
              (flat_map entry_nodes (filter is_folder_entry entries))).
  { eapply sub_perm;
      [reflexivity
      | apply Permutation_flat_map, (SortFacts.sorted_by_perm
                                       (fun kv : string * merged => lower (fst kv)))
      |].
    apply built_from_entries; [|exact Hbuilt].
    apply Forall_forall. intros kv Hin.
    apply BuilderOrder.folder_entries_in in Hin as [Hin _].
    rewrite Forall_forall in IH. exact (IH kv Hin). }
  pose proof (direct_and_folders (fun v => map item_node (all_items v))
                                 entries eq_refl) as Hlevel.
  rewrite all_items_dict, map_flat_map.
  change (fun kv : string * merged => map item_node (all_items (snd kv)))
    with entry_nodes in Hlevel |- *.
  intros Htree. eapply sub_trans; [|exact Hlevel].
  destruct (get_or (dict_get BOOKMARKS_KEY entries) (MList []))
    as [[|e rest]|[|b items]]; inversion Htree; subst.
  - eapply sub_trans; [exact Hfolders|].
    apply (sub_app [] _ _ _ (sub_nil _) (sub_refl _)).
  - exact Hfolders.
  - rewrite tree_entries_app, tree_entries_items.
    eapply sub_perm; [apply Permutation_app_comm | reflexivity |].
    apply sub_app; [|exact Hfolders].
    eapply sub_perm; [|reflexivity | apply sub_refl].
    apply Permutation_map. symmetry.
    exact (SortFacts.sorted_by_perm (item_sort_key lower) (b :: items)).
Qed.

End Entries.
End BuilderEntries.

(** ** The collector *)

Module CollectorFacts.
Import Multiset.

Lemma node_induction (P : node -> Prop) :
  (forall t n u g da dm, P (Node t n u g da dm None)) ->
  (forall t n u g da dm children,
      Forall P children -> P (Node t n u g da dm (Some children))) ->
  forall nd, P nd.
Proof.
  intros Hleaf Hnode. fix IH 1. intros [t n u g da dm [children|]].
  - apply Hnode. induction children as [|c cs IHcs]; constructor.
    + apply IH.
    + exact IHcs.
  - apply Hleaf.
Qed.

Section Collect.
Variable uuid4 : nat -> string.

Lemma collect_all_app (vs1 vs2 : list (list string * node))
      (st : collector_state) :
  collect_all uuid4 (vs1 ++ vs2) st
  = match collect_all uuid4 vs1 st with
    | Some st' => collect_all uuid4 vs2 st'
    | None => None
    end.
Proof.
  revert st. induction vs1 as [|[path nd] vs1 IH]; intros st; simpl.
  - reflexivity.
  - destruct (collect_url uuid4 nd path st); [apply IH | reflexivity].
Qed.

(** The collector does at a node what [collect_url] does, in turn, at the
    entries it visits below that node. *)
Lemma collect_visits (nd : node) :
  forall path depth st,
    collect_bookmarks_recursively uuid4 nd path depth st
    = collect_all uuid4 (visits nd path depth) st.
Proof.
  induction nd as [t n u g da dm | t n u g da dm children IH]
    using node_induction; intros path depth st.
  - simpl. destruct (Nat.ltb MAX_RECURSION_DEPTH depth); [reflexivity|].
    destruct (type_is _ "url").
    + simpl. now destruct (collect_url uuid4 _ path st).
    + now destruct (type_is _ "folder").
  - simpl. destruct (Nat.ltb MAX_RECURSION_DEPTH depth); [reflexivity|].
    destruct (type_is _ "url").
    + simpl. now destruct (collect_url uuid4 _ path st).
    + destruct (type_is _ "folder"); [|reflexivity].
      generalize (next_path_parts (Node t n u g da dm (Some children)) path).
      intros next. revert st.
      induction IH as [|c cs Hc _ IHcs]; intros st; simpl; [reflexivity|].
      rewrite collect_all_app, <- Hc.
      destruct (collect_bookmarks_recursively uuid4 c next (S depth) st);
        [apply IHcs | reflexivity].
Qed.

Lemma scan_roots_visits (roots : list (string * node)) (st : collector_state) :
  scan_roots uuid4 roots st = collect_all uuid4 (root_visits roots) st.
Proof.
  revert st. induction roots as [|[root_name root_node] roots IH];
    intros st; [reflexivity|].
  unfold root_visits. simpl. fold (root_visits roots).
  destruct (is_chrome_root root_name).
  - rewrite collect_all_app, <- collect_visits.
    destruct (collect_bookmarks_recursively uuid4 root_node [root_name] 0 st);
      [apply IH | reflexivity].
  - apply IH.
Qed.

End Collect.
End CollectorFacts.

Module CollectorInvariant.
Import Multiset BuilderEntries.

Lemma dict_set_perm {V X : Type} (f : V -> list X) (k : string) (v' : V)
      (d : list (string * V)) (extra : list X) (default : V) :
  f default = [] ->
  Permutation (f v') (extra ++ f (get_or (dict_get k d) default)) ->
  Permutation (flat_map (fun kv => f (snd kv)) (dict_set k v' d))
              (extra ++ flat_map (fun kv => f (snd kv)) d).
Proof.
  intros Hdefault. induction d as [|[k' v0] d IH]; simpl.
  - rewrite Hdefault, !app_nil_r. auto.
  - destruct (String.eqb k k'); simpl; intros Hv'.
    + rewrite Hv', <- app_assoc. reflexivity.
    + rewrite (IH Hv'). apply Permutation_app_swap_app.
Qed.

(** Filing an item adds that item to the merge structure and nothing else. *)
Lemma file_item_perm (path : list string) (b : bookmark_item) :
  forall m m',
    file_item path b m = Some m' ->
    Permutation (all_items m') (b :: all_items m).
Proof.
  induction path as [|segment rest IH]; intros [entries | items] m';
    cbn [file_item]; try discriminate.
  - destruct (get_or (dict_get BOOKMARKS_KEY entries) (MList []))
      as [es | items] eqn:Hdirect; [discriminate|].
    intros H. inversion H; subst. rewrite !all_items_dict.
    apply (dict_set_perm all_items BOOKMARKS_KEY _ entries [b] (MList []));
      [reflexivity|].
    rewrite Hdirect. simpl. symmetry. apply Permutation_cons_append.
  - destruct (file_item rest b (get_or (dict_get segment entries) (MDict [])))
      as [level'|] eqn:Hrest; [|discriminate].
    intros H. inversion H; subst. rewrite !all_items_dict.
    apply (dict_set_perm all_items segment _ entries [b] (MDict []));
      [reflexivity|].
    exact (IH _ _ Hrest).
Qed.

Lemma first_visit_later (vs : list (list string * node))
      (v : list string * node) (b : bookmark_item) :
  first_visit vs b -> first_visit (vs ++ [v]) b.
Proof.
  intros (before & path & x & after & -> & Hrest).
  exists before, path, x, (after ++ [v]).
  split; [|exact Hrest]. now rewrite <- app_assoc.
Qed.

Section Invariant.
Variable uuid4 : nat -> string.

Lemma invariant_initial : collector_invariant [] initial_state.
Proof.
  repeat split; simpl; try contradiction. constructor.
Qed.

Lemma invariant_unchanged (vs : list (list string * node))
      (path : list string) (x : node) (st : collector_state) :
  collector_invariant vs st ->
  (skipped_url (node_url x) = false ->
   forall u, node_url x = Some u -> In u (seen_urls st)) ->
  collector_invariant (vs ++ [(path, x)]) st.
Proof.
  intros (Hseen & Hitems & Hnodup) Hx. repeat split.
  - intros q y u Hin Hok Hurl. apply in_app_or in Hin as [Hin | [Heq | []]].
    + exact (Hseen q y u Hin Hok Hurl).
    + inversion Heq; subst. exact (Hx Hok u Hurl).
  - apply first_visit_later. now apply Hitems.
  - now apply Hitems.
  - exact Hnodup.
Qed.

Lemma invariant_step (vs : list (list string * node)) (path : list string)
      (x : node) (st st' : collector_state) :
  collector_invariant vs st ->
  collect_url uuid4 x path st = Some st' ->
  collector_invariant (vs ++ [(path, x)]) st'.
Proof.
  intros Hinv. unfold collect_url.
  destruct (skipped_url (node_url x)) eqn:Hskip.
  { intros H. inversion H; subst. apply invariant_unchanged; [exact Hinv|].
    intros Hok. congruence. }
  destruct (node_url x) as [u|] eqn:Hurl; [|discriminate]. simpl.
  destruct (in_names u (seen_urls st)) eqn:Hseen_u.
  { intros H. inversion H; subst. apply invariant_unchanged; [exact Hinv|].
    intros _ u' Hu'. rewrite Hurl in Hu'. inversion Hu'; subst.
    now apply in_names_spec. }
  destruct (file_item _ _ (collected_bookmarks st)) as [collected'|] eqn:Hfile;
    [|discriminate].
  intros H. inversion H; subst. clear H.
  apply file_item_perm in Hfile.
  apply in_names_false in Hseen_u.
  destruct Hinv as (Hseen & Hitems & Hnodup).
  split; [|split]; simpl.
  - intros q y u' Hin Hok Hy. apply in_app_or in Hin as [Hin | [Heq | []]].
    + right. exact (Hseen q y u' Hin Hok Hy).
    + inversion Heq; subst. left. congruence.
  - intros b Hb. apply (Permutation_in _ Hfile) in Hb as [<- | Hold].
    + split; [|now left].
      exists vs, path, x, []. simpl.
      split; [reflexivity|]. split; [now rewrite Hurl|].
      split; [exact Hurl|]. split; [|split; reflexivity].
      intros q y Hin Hy. apply Hseen_u.
      apply (Hseen q y u Hin); [|exact Hy]. rewrite Hy. exact Hskip.
    + split; [apply first_visit_later|right]; now apply Hitems.
  - apply (Permutation_NoDup (Permutation_map item_url (Permutation_sym Hfile))).
    simpl. constructor; [|exact Hnodup].
    intros Hin. apply in_map_iff in Hin as [b [Hb Hin]].
    apply Hseen_u. rewrite <- Hb. now apply Hitems.
Qed.

Lemma invariant_collect_all (vs : list (list string * node)) :
  forall vs0 st st',
    collector_invariant vs0 st ->
    collect_all uuid4 vs st = Some st' ->
    collector_invariant (vs0 ++ vs) st'.
Proof.
  induction vs as [|[path x] vs IH]; intros vs0 st st' Hinv; simpl.
  - intros H. inversion H; subst. now rewrite app_nil_r.
  - destruct (collect_url uuid4 x path st) as [st1|] eqn:Hstep;
      [|discriminate].
    intros Hrest.
    change ((path, x) :: vs) with ([(path, x)] ++ vs). rewrite app_assoc.
    apply (IH _ st1); [|exact Hrest].
    now apply (invariant_step vs0 path x st).
Qed.

Lemma invariant_scan_roots (roots : list (string * node))
      (st : collector_state) :
  scan_roots uuid4 roots initial_state = Some st ->
  collector_invariant (root_visits roots) st.
Proof.
  rewrite CollectorFacts.scan_roots_visits. intros Hscan.
  exact (invariant_collect_all _ [] _ _ invariant_initial Hscan).
Qed.

End Invariant.
End CollectorInvariant.

(** ** The saved tree *)

Module RunFacts.
Import Multiset.

Lemma dict_get_set {V : Type} (k : string) (v : V) (d : list (string * V)) :
  dict_get k (dict_set k v d) = Some v.
Proof.
  induction d as [|[k' v'] d IH]; simpl.
  - now rewrite String.eqb_refl.
  - destruct (String.eqb k k') eqn:Hk; simpl; now rewrite Hk.
Qed.

Lemma placed_children (tree : list node) (roots : list (string * node)) :
  dict_has DESTINATION_ROOT_NAME roots = true ->
  destination_children (Document (Some (place_children tree roots)))
  = Some tree.
Proof.
  unfold dict_has, destination_children, place_children. simpl doc_roots.
  destruct (dict_get DESTINATION_ROOT_NAME roots) as [destination|];
    [|discriminate].
  intros _. rewrite dict_get_set. now destruct destination.
Qed.

Section Run.
Variable uuid4 : nat -> string.
Variable lower : string -> string.

(** A run that saves has scanned the roots, built the tree and put it under
    the destination container. *)
Lemma main_saved (bookmark_data d : document) :
  run_saved (main uuid4 lower bookmark_data) = Some d ->
  exists roots st tree calls,
    doc_roots bookmark_data = Some roots
    /\ scan_roots uuid4 roots initial_state = Some st
    /\ build_chrome_json_structure uuid4 lower (collected_bookmarks st)
                                   (uuid_calls st) = Some (tree, calls)
    /\ destination_children d = Some tree.
Proof.
  unfold main.
  destruct (doc_roots bookmark_data) as [[|r rs]|] eqn:Hroots;
    try discriminate.
  remember (r :: rs) as roots.
  destruct (scan_roots uuid4 roots initial_state) as [st|] eqn:Hscan;
    [|discriminate].
  destruct (negb (truthy (collected_bookmarks st))); [discriminate|].
  destruct (build_chrome_json_structure uuid4 lower (collected_bookmarks st)
              (uuid_calls st)) as [[tree calls]|] eqn:Hbuild; [|discriminate].
  destruct (dict_has DESTINATION_ROOT_NAME (clear_roots roots)) eqn:Hdest;
    [|discriminate].
  simpl. intros H. inversion H; subst d.
  exists roots, st, tree, calls.
  split; [reflexivity|]. split; [exact Hscan|]. split; [exact Hbuild|].
  now apply placed_children.
Qed.

(** The entries of the built tree are items of the merge structure: each was
    made at the first visit of its URL, and no URL occurs twice. *)
Lemma built_tree_entries (roots : list (string * node)) (st : collector_state)
      (tree : list node) (calls : nat) :
  scan_roots uuid4 roots initial_state = Some st ->
  build_chrome_json_structure uuid4 lower (collected_bookmarks st)
                              (uuid_calls st) = Some (tree, calls) ->
  NoDup (tree_urls tree)
  /\ forall e, In e (tree_entries tree) ->
               exists b, e = item_node b /\ first_visit (root_visits roots) b.
Proof.
  intros Hscan Hbuild.
  apply CollectorInvariant.invariant_scan_roots in Hscan
    as (_ & Hitems & Hnodup).
  apply BuilderEntries.build_entries in Hbuild. split.
  - unfold tree_urls. apply (sub_nodup_map node_url _ _ Hbuild).
    rewrite map_map. simpl.
    rewrite <- (map_map item_url Some).
    now apply nodup_map_some.
  - intros e He. apply (sub_in _ _ _ Hbuild) in He.
    apply in_map_iff in He as [b [<- Hb]].
    exists b. split; [reflexivity | now apply Hitems].
Qed.

End Run.
End RunFacts.

(** C2.  Whenever a run saves, the tree it has put under the destination
    container holds no URL twice. *)
Theorem destination_urls_unique
        (uuid4 : nat -> string) (lower : string -> string)
        (bookmark_data d : document) :
  run_saved (main uuid4 lower bookmark_data) = Some d ->
  exists tree,
    destination_children d = Some tree /\ NoDup (tree_urls tree).
Proof.
  intros Hsaved.
  apply RunFacts.main_saved in Hsaved
    as (roots & st & tree & calls & _ & Hscan & Hbuild & Hdest).
  exists tree. split; [exact Hdest|].
  exact (proj1 (RunFacts.built_tree_entries uuid4 lower roots st tree calls
                                            Hscan Hbuild)).
Qed.

Lemma destination_urls_unique_witness :
  exists d,
    run_saved (main numbered_guid lower_ascii
                    (basic_merge_document "http://x" "first" "second"))
    = Some d
    /\ exists tree,
        destination_children d = Some tree /\ NoDup (tree_urls tree).
Proof.
  eexists. split; [reflexivity|].
  apply (destination_urls_unique numbered_guid lower_ascii
           (basic_merge_document "http://x" "first" "second")).
  reflexivity.
Defined.



(** * Further properties of the code *)

(** ** [get_canonical_path_segments] *)

Module CanonicalizerShape.
Import Canonicalizer CanonicalizerFacts.

Lemma user_parts_split (p : list string) :
  exists lead,
    p = lead ++ user_defined_path_parts p
    /\ forallb is_chrome_root lead = true.
Proof.
  induction p as [|h t (lead & Hsplit & Hlead)].
  - now exists [].
  - destruct (is_chrome_root h) eqn:Hh.
    + exists (h :: lead). rewrite user_parts_root by assumption.
      simpl. rewrite Hh, Hlead. split; [now rewrite <- Hsplit | reflexivity].
    + exists []. rewrite user_parts_user by assumption. now split.
Qed.

Lemma user_parts_head (p : list string) :
  match user_defined_path_parts p with
  | h :: _ => is_chrome_root h = false
  | [] => forallb is_chrome_root p = true
  end.
Proof.
  induction p as [|h t IH]; [reflexivity|].
  destruct (is_chrome_root h) eqn:Hh.
  - rewrite user_parts_root by assumption.
    destruct (user_defined_path_parts t); [|exact IH].
    simpl. now rewrite Hh.
  - rewrite user_parts_user by assumption. exact Hh.
Qed.

Lemma user_parts_some (p : list string) :
  existsb (fun s => negb (is_chrome_root s)) p = true ->
  user_defined_path_parts p <> [].
Proof.
  intros Hsome Hnone. pose proof (user_parts_head p) as Hhead.
  rewrite Hnone in Hhead.
  apply existsb_exists in Hsome as [s [Hin Hs]].
  rewrite forallb_forall in Hhead. rewrite (Hhead s Hin) in Hs. discriminate.
Qed.

(** What the backward scan leaves out ends with a name it has kept. *)
Lemma dedup_scan_cut (rparts final : list string) :
  exists dropped,
    rev rparts ++ final = dropped ++ dedup_scan rparts final final
    /\ (dropped = []
        \/ exists d x, dropped = d ++ [x]
                       /\ In x (dedup_scan rparts final final)).
Proof.
  revert final. induction rparts as [|c rest IH]; intros final; simpl.
  - exists []. split; [reflexivity | now left].
  - destruct (in_names c final) eqn:Hc; simpl.
    + exists (rev rest ++ [c]). split; [now rewrite <- app_assoc|].
      right. exists (rev rest), c. split; [reflexivity|].
      now apply in_names_spec.
    + destruct (IH (c :: final)) as (dropped & Hsplit & Hlast).
      exists dropped. split; [|exact Hlast].
      now rewrite <- app_assoc.
Qed.

Lemma canonical_of_user_parts (p : list string) :
  user_defined_path_parts p <> [] ->
  get_canonical_path_segments p
  = dedup_scan (rev (user_defined_path_parts p)) [] [].
Proof.
  intros Hne. unfold get_canonical_path_segments.
  destruct (user_defined_path_parts p); [congruence | reflexivity].
Qed.

Lemma canonical_within (p : list string) :
  incl (get_canonical_path_segments p) p
  /\ List.length (get_canonical_path_segments p) <= List.length p.
Proof.
  destruct (user_defined_path_parts p) as [|u us] eqn:Huser.
  - unfold get_canonical_path_segments. rewrite Huser.
    destruct p as [|first rest]; simpl.
    + split; [intros x [] | apply Nat.le_refl].
    + split; [intros x [<- | []]; now left | lia].
  - destruct (user_parts_split p) as (lead & Hp & _).
    destruct (dedup_scan_cut
                (rev (user_defined_path_parts p)) [])
      as (dropped & Hcut & _).
    rewrite app_nil_r, rev_involutive in Hcut.
    rewrite <- canonical_of_user_parts in Hcut
      by (rewrite Huser; discriminate).
    assert (Hall : p = (lead ++ dropped) ++ get_canonical_path_segments p)
      by (rewrite <- app_assoc, <- Hcut; exact Hp).
    split.
    + intros x Hx. rewrite Hall. apply in_or_app. now right.
    + rewrite Hall at 2. rewrite length_app. lia.
Qed.

End CanonicalizerShape.

(** X1.  A canonical path never holds the same name twice. *)
Theorem canonical_path_repeat_free (p : list string) :
  NoDup (get_canonical_path_segments p).
Proof. apply CanonicalizerFacts.canonical_nodup. Qed.

(** X2.  For a path with a user-defined segment, the canonical path is the
    longest repeat-free end of the path that remains once the leading
    root-marker names are dropped: the path is [lead ++ dropped ++ canonical],
    [lead] is the leading run of root-marker names, and [dropped], if not
    empty, ends with a name that occurs in the canonical path. *)
Theorem canonical_path_longest_repeat_free_end (p : list string) :
  existsb (fun s => negb (is_chrome_root s)) p = true ->
  exists lead dropped,
    p = lead ++ dropped ++ get_canonical_path_segments p
    /\ forallb is_chrome_root lead = true
    /\ match dropped ++ get_canonical_path_segments p with
       | h :: _ => is_chrome_root h = false
       | [] => False
       end
    /\ NoDup (get_canonical_path_segments p)
    /\ (dropped = []
        \/ exists d x, dropped = d ++ [x]
                       /\ In x (get_canonical_path_segments p)).
Proof.
  intros Hsome.
  pose proof (CanonicalizerShape.user_parts_some p Hsome) as Hne.
  destruct (CanonicalizerShape.user_parts_split p) as (lead & Hp & Hlead).
  destruct (CanonicalizerShape.dedup_scan_cut
              (rev (user_defined_path_parts p)) [])
    as (dropped & Hcut & Hlast).
  rewrite app_nil_r, rev_involutive in Hcut.
  rewrite <- CanonicalizerShape.canonical_of_user_parts in Hcut, Hlast
    by assumption.
  exists lead, dropped.
  split; [now rewrite <- Hcut|]. split; [exact Hlead|].
  split.
  { rewrite <- Hcut. pose proof (CanonicalizerShape.user_parts_head p) as Hh.
    destruct (user_defined_path_parts p); [congruence | exact Hh]. }
  split; [apply CanonicalizerFacts.canonical_nodup | exact Hlast].
Qed.

Lemma canonical_path_longest_repeat_free_end_witness :
  exists lead dropped,
    ["Bookmarks Bar"; "Projects"; "Design"; "Projects"]
    = lead ++ dropped
           ++ get_canonical_path_segments
                ["Bookmarks Bar"; "Projects"; "Design"; "Projects"]
    /\ forallb is_chrome_root lead = true
    /\ match dropped
             ++ get_canonical_path_segments
                  ["Bookmarks Bar"; "Projects"; "Design"; "Projects"] with
       | h :: _ => is_chrome_root h = false
       | [] => False
       end
    /\ NoDup (get_canonical_path_segments
                ["Bookmarks Bar"; "Projects"; "Design"; "Projects"])
    /\ (dropped = []
        \/ exists d x,
            dropped = d ++ [x]
            /\ In x (get_canonical_path_segments
                       ["Bookmarks Bar"; "Projects"; "Design"; "Projects"])).
Proof.
  apply (canonical_path_longest_repeat_free_end
           ["Bookmarks Bar"; "Projects"; "Design"; "Projects"]).
  reflexivity.
Defined.

(** X3.  A path made of root-marker names followed by a repeat-free path
    that starts with a user-defined name canonicalizes to that second
    part: the root containers are dropped and nothing else changes. *)
Theorem canonical_path_of_clean_path (lead : list string) (h : string)
        (t : list string) :
  forallb is_chrome_root lead = true ->
  is_chrome_root h = false ->
  NoDup (h :: t) ->
  get_canonical_path_segments (lead ++ h :: t) = h :: t.
Proof.
  intros Hlead Hh Hnd.
  assert (Huser : user_defined_path_parts (lead ++ h :: t) = h :: t).
  { induction lead as [|r lead IH]; simpl.
    - now apply CanonicalizerFacts.user_parts_user.
    - simpl in Hlead. apply andb_true_iff in Hlead as [Hr Hlead].
      change (r :: lead ++ h :: t) with (r :: (lead ++ h :: t)).
      rewrite CanonicalizerFacts.user_parts_root by assumption. auto. }
  rewrite CanonicalizerShape.canonical_of_user_parts by (rewrite Huser; discriminate).
  rewrite Huser, CanonicalizerFacts.dedup_scan_repeat_free;
    now rewrite app_nil_r, rev_involutive.
Qed.

Lemma canonical_path_of_clean_path_witness :
  get_canonical_path_segments
    (["Other Bookmarks"] ++ "Work" :: ["Projects"; "Design"])
  = "Work" :: ["Projects"; "Design"].
Proof.
  apply (canonical_path_of_clean_path ["Other Bookmarks"] "Work"
           ["Projects"; "Design"]).
  - reflexivity.
  - reflexivity.
  - repeat constructor; simpl; intuition discriminate.
Defined.

(** X4.  Every segment of a canonical path is a segment of the original
    path, and the canonical path is not longer than the original. *)
Theorem canonical_path_within_original (p : list string) :
  incl (get_canonical_path_segments p) p
  /\ List.length (get_canonical_path_segments p) <= List.length p.
Proof. apply CanonicalizerShape.canonical_within. Qed.

(** ** Dicts as association lists *)

Module DictFacts.
Section Facts.
Context {V : Type}.
Implicit Types (d : list (string * V)) (k : string) (v : V).

Lemma dict_get_set_other k k' v d :
  k <> k' -> dict_get k (dict_set k' v d) = dict_get k d.
Proof.
  intros Hne. pose proof (proj2 (String.eqb_neq k k') Hne) as Hkk'.
  induction d as [|[k0 v0] d IH]; simpl.
  - now rewrite Hkk'.
  - destruct (String.eqb k' k0) eqn:Hk'; simpl.
    + apply String.eqb_eq in Hk'. subst k0. now rewrite Hkk'.
    + now rewrite IH.
Qed.

Lemma dict_get_none k d : dict_get k d = None -> ~ In k (map fst d).
Proof.
  induction d as [|[k0 v0] d IH]; simpl; [tauto|].
  destruct (String.eqb k k0) eqn:Hk; [discriminate|].
  apply String.eqb_neq in Hk. intros Hnone [Heq | Hin]; [congruence|].
  now apply IH.
Qed.

Lemma dict_get_some k d v : dict_get k d = Some v -> In k (map fst d).
Proof.
  intros H. apply BuilderFacts.dict_get_in in H.
  now apply (in_map fst) in H.
Qed.

(** Assigning to a key keeps the keys, or adds the key at the end. *)
Lemma dict_set_keys k v d :
  map fst (dict_set k v d)
  = if dict_has k d then map fst d else map fst d ++ [k].
Proof.
  unfold dict_has. induction d as [|[k0 v0] d IH]; simpl; [reflexivity|].
  destruct (String.eqb k k0); simpl; [reflexivity|].
  rewrite IH. now destruct (dict_get k d).
Qed.

Lemma dict_set_unique k v d :
  NoDup (map fst d) -> NoDup (map fst (dict_set k v d)).
Proof.
  intros Hnd. rewrite dict_set_keys. unfold dict_has.
  destruct (dict_get k d) eqn:Hget; [exact Hnd|].
  apply dict_get_none in Hget.
  apply (Permutation_NoDup (Permutation_cons_append _ _)).
  now constructor.
Qed.

Lemma dict_set_in k v d k' v' :
  In (k', v') (dict_set k v d) -> (k' = k /\ v' = v) \/ In (k', v') d.
Proof.
  induction d as [|[k0 v0] d IH]; simpl.
  - intros [H | []]. inversion H. now left.
  - destruct (String.eqb k k0) eqn:Hk; simpl.
    + apply String.eqb_eq in Hk. subst k0.
      intros [H | H]; [inversion H; now left | right; now right].
    + intros [H | H]; [right; now left|].
      destruct (IH H) as [Hnew | Hold]; [now left | right; now right].
Qed.

Lemma dict_set_forall (P : string * V -> Prop) k v d :
  Forall P d -> P (k, v) -> Forall P (dict_set k v d).
Proof.
  intros Hall Hnew. apply Forall_forall. intros [k' v'] Hin.
  apply dict_set_in in Hin as [[-> ->] | Hin]; [exact Hnew|].
  rewrite Forall_forall in Hall. now apply Hall.
Qed.

Lemma dict_set_not_empty k v d : dict_set k v d <> [].
Proof.
  destruct d as [|[k0 v0] d]; simpl; [discriminate|].
  now destruct (String.eqb k k0).
Qed.

Lemma dict_get_forall (P : string * V -> Prop) k v d :
  Forall P d -> dict_get k d = Some v -> P (k, v).
Proof.
  intros Hall Hget. rewrite Forall_forall in Hall.
  now apply Hall, BuilderFacts.dict_get_in.
Qed.

End Facts.
End DictFacts.

(** ** [file_item]: the walk of lines 155-165 *)

Module FilingFacts.
Import DictFacts BuilderFacts.

Lemma file_item_dict (path : list string) (b : bookmark_item) (m m' : merged) :
  file_item path b m = Some m' ->
  exists e es, m' = MDict (e :: es).
Proof.
  assert (Hset : forall k v (d : list (string * merged)),
             exists e es, MDict (dict_set k v d) = MDict (e :: es)).
  { intros k v d. pose proof (dict_set_not_empty k v d) as Hne.
    destruct (dict_set k v d) as [|e es]; [congruence | now exists e, es]. }
  destruct m as [entries | items]; [|destruct path; discriminate].
  destruct path as [|segment rest]; cbn [file_item].
  - destruct (get_or (dict_get BOOKMARKS_KEY entries) (MList []));
      [discriminate|].
    intros H. inversion H. apply Hset.
  - destruct (file_item rest b _); [|discriminate].
    intros H. inversion H. apply Hset.
Qed.

Lemma entries_at_empty (path : list string) : entries_at path (MDict []) = None.
Proof. now destruct path. Qed.

(** Filing an item puts it at the end of the entry list at its path. *)
Lemma file_item_entries_at (path : list string) (b : bookmark_item) :
  forall m m',
    file_item path b m = Some m' ->
    entries_at path m' = Some (get_or (entries_at path m) [] ++ [b]).
Proof.
  induction path as [|segment rest IH]; intros [entries | items] m';
    cbn [file_item]; try discriminate.
  - destruct (dict_get BOOKMARKS_KEY entries) as [[es | items]|] eqn:Hget;
      cbn [get_or]; try discriminate;
      intros H; inversion H; subst; cbn [entries_at];
        now rewrite RunFacts.dict_get_set, Hget.
  - destruct (file_item rest b (get_or (dict_get segment entries) (MDict [])))
      as [level'|] eqn:Hrest; [|discriminate].
    intros H. inversion H; subst. cbn [entries_at].
    rewrite RunFacts.dict_get_set, (IH _ _ Hrest).
    destruct (dict_get segment entries); cbn [get_or]; [reflexivity|].
    now rewrite entries_at_empty.
Qed.

(** Filing an item keeps what every entry list of the structure held. *)
Lemma file_item_keeps (path : list string) (b : bookmark_item) :
  forall m m' q items,
    file_item path b m = Some m' ->
    entries_at q m = Some items ->
    exists items', entries_at q m' = Some items' /\ incl items items'.
Proof.
  induction path as [|segment rest IH]; intros [entries | old] m' q items;
    cbn [file_item]; try discriminate.
  - destruct (dict_get BOOKMARKS_KEY entries) as [[es | direct]|] eqn:Hget;
      cbn [get_or]; try discriminate;
      intros H; inversion H; subst; clear H;
      destruct q as [|s q']; cbn [entries_at];
        rewrite ?RunFacts.dict_get_set, ?Hget; try discriminate.
    + intros Hq. inversion Hq; subst. eexists. split; [reflexivity|].
      now apply incl_appl, incl_refl.
    + destruct (String.eqb s BOOKMARKS_KEY) eqn:Hs.
      * apply String.eqb_eq in Hs. subst s. rewrite Hget.
        destruct q'; discriminate.
      * apply String.eqb_neq in Hs. rewrite dict_get_set_other by assumption.
        intros Hq. exists items. split; [exact Hq | apply incl_refl].
    + destruct (String.eqb s BOOKMARKS_KEY) eqn:Hs.
      * apply String.eqb_eq in Hs. subst s. rewrite Hget. discriminate.
      * apply String.eqb_neq in Hs. rewrite dict_get_set_other by assumption.
        intros Hq. exists items. split; [exact Hq | apply incl_refl].
  - destruct (file_item rest b (get_or (dict_get segment entries) (MDict [])))
      as [level'|] eqn:Hrest; [|discriminate].
    intros H. inversion H; subst; clear H.
    destruct q as [|s q']; cbn [entries_at].
    + destruct (String.eqb BOOKMARKS_KEY segment) eqn:Hs.
      * apply String.eqb_eq in Hs. subst segment.
        destruct (dict_get BOOKMARKS_KEY entries) as [[es | direct]|];
          try discriminate.
        destruct rest; discriminate.
      * apply String.eqb_neq in Hs. rewrite dict_get_set_other by assumption.
        intros Hq. exists items. split; [|apply incl_refl].
        destruct (dict_get BOOKMARKS_KEY entries) as [[es | direct]|];
          congruence.
    + destruct (String.eqb s segment) eqn:Hs.
      * apply String.eqb_eq in Hs. subst s. rewrite RunFacts.dict_get_set.
        destruct (dict_get segment entries) as [level|]; [|discriminate].
        cbn [get_or] in Hrest. intros Hq.
        exact (IH _ _ _ _ Hrest Hq).
      * apply String.eqb_neq in Hs. rewrite dict_get_set_other by assumption.
        intros Hq. exists items. split; [exact Hq | apply incl_refl].
Qed.

(** Filing an item keeps the keys of every dict distinct. *)
Lemma file_item_unique_keys (path : list string) (b : bookmark_item) :
  forall m m',
    unique_keys m -> file_item path b m = Some m' -> unique_keys m'.
Proof.
  induction path as [|segment rest IH]; intros [entries | items] m' Huk;
    cbn [file_item]; try discriminate;
    inversion Huk as [|? Hnd Hall]; subst.
  - destruct (get_or (dict_get BOOKMARKS_KEY entries) (MList []));
      [discriminate|].
    intros H. inversion H; subst. constructor.
    + now apply dict_set_unique.
    + apply dict_set_forall; [exact Hall | constructor].
  - destruct (file_item rest b (get_or (dict_get segment entries) (MDict [])))
      as [level'|] eqn:Hrest; [|discriminate].
    intros H. inversion H; subst. constructor.
    + now apply dict_set_unique.
    + apply dict_set_forall; [exact Hall|]. simpl.
      apply (IH (get_or (dict_get segment entries) (MDict [])) level');
        [|exact Hrest].
      destruct (dict_get segment entries) as [level|] eqn:Hget; cbn [get_or].
      * exact (dict_get_forall _ _ _ _ Hall Hget).
      * constructor; constructor.
Qed.

End FilingFacts.

Module FilingSafety.
Import DictFacts BuilderFacts.



Lemma buildable_dict (entries : list (string * merged)) :
  buildable (MDict entries)
  = forallb buildable_entry entries
    && match get_or (dict_get BOOKMARKS_KEY entries) (MList []) with
       | MDict (_ :: _) => false
       | _ => true
       end.
Proof.
  simpl. f_equal.
  induction entries as [|[k v] es IH]; [reflexivity|].
  unfold buildable_entry at 1. simpl. now rewrite IH.
Qed.

Lemma dict_set_keeps_others {V : Type} (k : string) (v : V)
      (d : list (string * V)) (k' : string) (v' : V) :
  In (k', v') d ->
  In (k', v') (dict_set k v d) \/ (k' = k /\ dict_get k d = Some v').
Proof.
  induction d as [|[k0 v0] d IH]; simpl; [tauto|].
  destruct (String.eqb k k0) eqn:Hk.
  - apply String.eqb_eq in Hk. subst k0.
    intros [H | H]; [inversion H; now right | left; now right].
  - intros [H | H]; [left; now left|].
    destruct (IH H) as [Hin | Hrep]; [left; now right | now right].
Qed.

(** A structure the builder cannot build stays so when an item is filed. *)
Lemma file_item_buildable (path : list string) (b : bookmark_item) :
  forall m m',
    file_item path b m = Some m' ->
    buildable m' = true -> buildable m = true.
Proof.
  induction path as [|segment rest IH]; intros [entries | items] m';
    cbn [file_item]; try discriminate.
  - destruct (get_or (dict_get BOOKMARKS_KEY entries) (MList []))
      as [es | direct] eqn:Hdirect; [discriminate|].
    intros H. inversion H; subst; clear H.
    rewrite !buildable_dict, Hdirect, !andb_true_iff, !forallb_forall.
    intros [Hall _]. split; [|reflexivity].
    intros [k v] Hin.
    destruct (dict_set_keeps_others BOOKMARKS_KEY (MList (direct ++ [b]))
                                    entries k v Hin) as [Hkept | [-> _]].
    + now apply Hall.
    + unfold buildable_entry. simpl fst. now rewrite String.eqb_refl.
  - destruct (file_item rest b (get_or (dict_get segment entries) (MDict [])))
      as [level'|] eqn:Hrest; [|discriminate].
    intros H. inversion H; subst; clear H.
    rewrite !buildable_dict, !andb_true_iff, !forallb_forall.
    intros [Hall Hdirect].
    assert (Hnew : buildable_entry (segment, level') = true).
    { apply Hall. apply dict_get_in. apply RunFacts.dict_get_set. }
    destruct (String.eqb segment BOOKMARKS_KEY) eqn:Hseg.
    { apply String.eqb_eq in Hseg. subst segment.
      rewrite RunFacts.dict_get_set in Hdirect. cbn [get_or] in Hdirect.
      destruct (FilingFacts.file_item_dict _ _ _ _ Hrest) as (e & es & ->).
      discriminate. }
    split.
    + intros [k v] Hin.
      destruct (dict_set_keeps_others segment level' entries k v Hin)
        as [Hkept | [-> Hget]]; [now apply Hall|].
      unfold buildable_entry in *. simpl in *. rewrite Hseg in *. simpl in *.
      rewrite Hget in Hrest. exact (IH _ _ Hrest Hnew).
    + apply String.eqb_neq in Hseg.
      rewrite dict_get_set_other in Hdirect by congruence. exact Hdirect.
Qed.

(** Filing along a path that has the name ["_bookmarks"] leaves a structure
    the builder cannot build. *)
Lemma file_item_sentinel (path : list string) (b : bookmark_item) :
  forall m m',
    In BOOKMARKS_KEY path ->
    file_item path b m = Some m' -> buildable m' = false.
Proof.
  induction path as [|segment rest IH]; intros [entries | items] m' Hin;
    cbn [file_item]; try discriminate; try contradiction.
  destruct (file_item rest b (get_or (dict_get segment entries) (MDict [])))
    as [level'|] eqn:Hrest; [|discriminate].
  intros H. inversion H; subst; clear H.
  rewrite buildable_dict. apply andb_false_iff.
  destruct (String.eqb segment BOOKMARKS_KEY) eqn:Hseg.
  - right. apply String.eqb_eq in Hseg. subst segment.
    rewrite RunFacts.dict_get_set. cbn [get_or].
    now destruct (FilingFacts.file_item_dict _ _ _ _ Hrest) as (e & es & ->).
  - left. destruct Hin as [Heq | Hin].
    { subst segment. now rewrite String.eqb_refl in Hseg. }
    apply not_true_is_false. rewrite forallb_forall. intros Hall.
    specialize (Hall (segment, level')
                     (dict_get_in _ _ _ (RunFacts.dict_get_set _ _ _))).
    unfold buildable_entry in Hall. simpl in Hall.
    rewrite Hseg, (IH _ _ Hin Hrest) in Hall. discriminate.
Qed.

End FilingSafety.

(** ** [build_chrome_json_structure], further *)

Module BuilderMore.
Import DictFacts BuilderFacts Multiset BuilderEntries.

Section More.
Variable lower : string -> string.

Lemma forallb_false_exists {A : Type} (p : A -> bool) (l : list A) :
  forallb p l = false -> exists x, In x l /\ p x = false.
Proof.
  induction l as [|x l IH]; simpl; [discriminate|].
  intros H. apply andb_false_iff in H as [Hx | Hl].
  - exists x. split; [now left | exact Hx].
  - destruct (IH Hl) as (y & Hin & Hy). exists y. split; [now right | exact Hy].
Qed.

Lemma add_folders_raises (uuid4 : nat -> string)
      (es : list (string * merged)) :
  Exists (fun kv => forall c,
              build_chrome_json_structure uuid4 lower (snd kv) c = None) es ->
  forall acc calls,
    add_folders uuid4 (map (attach uuid4 lower) es) acc calls = None.
Proof.
  induction 1 as [[k v] es Hv | [k v] es _ IH]; intros acc calls; simpl.
  - simpl in Hv. now rewrite Hv.
  - destruct (build_chrome_json_structure uuid4 lower v calls)
      as [[children calls1]|]; [apply IH | reflexivity].
Qed.

(** The builder returns a tree exactly on the buildable structures. *)
Lemma build_buildable (m : merged) :
  forall (uuid4 : nat -> string),
    (buildable m = true ->
     forall calls, exists tree calls',
         build_chrome_json_structure uuid4 lower m calls = Some (tree, calls'))
    /\ (buildable m = false ->
        forall calls,
          build_chrome_json_structure uuid4 lower m calls = None).
Proof.
  induction m as [items | entries IH] using merged_induction; intros uuid4.
  { split; [discriminate | reflexivity]. }
  rewrite FilingSafety.buildable_dict. rewrite Forall_forall in IH. split.
  - intros Hb calls. apply andb_true_iff in Hb as [Hall Hdirect].
    rewrite forallb_forall in Hall. rewrite build_dict.
    destruct (add_folders_total lower uuid4 (folder_order lower entries) [] calls)
      as (fs & calls' & Hfs).
    { apply Forall_forall. intros kv Hin c.
      apply BuilderOrder.folder_entries_in in Hin as [Hin Hfolder].
      apply (IH kv Hin uuid4). specialize (Hall kv Hin).
      unfold buildable_entry in Hall. unfold is_folder_entry in Hfolder.
      destruct (String.eqb (fst kv) BOOKMARKS_KEY); [discriminate | exact Hall]. }
    unfold folder_order in Hfs. rewrite Hfs.
    destruct (get_or (dict_get BOOKMARKS_KEY entries) (MList []))
      as [[|e es]|[|b items]]; try discriminate; eauto.
  - intros Hb calls. rewrite build_dict. apply andb_false_iff in Hb as [Hall | Hdirect].
    + rewrite add_folders_raises; [reflexivity|].
      apply Exists_exists.
      assert (Hex : exists kv, In kv entries /\ buildable_entry kv = false)
        by now apply forallb_false_exists.
      destruct Hex as (kv & Hin & Hkv).
      unfold buildable_entry in Hkv. apply orb_false_iff in Hkv as [Hkey Hv].
      exists kv. split.
      * eapply Permutation_in;
          [symmetry; apply (SortFacts.sorted_by_perm
                              (fun kv : string * merged => lower (fst kv)))|].
        apply filter_In. split; [exact Hin|].
        unfold is_folder_entry. now rewrite Hkey.
      * intros c. now apply (IH kv Hin uuid4).
    + destruct (add_folders uuid4 _ [] calls) as [[fs calls']|];
        [|reflexivity].
      destruct (get_or (dict_get BOOKMARKS_KEY entries) (MList []))
        as [[|e es]|[|b items]]; try discriminate; reflexivity.
Qed.

End More.
End BuilderMore.

Module BuilderExact.
Import DictFacts BuilderFacts Multiset BuilderEntries.

Lemma filter_all {A : Type} (p : A -> bool) (l : list A) :
  (forall x, In x l -> p x = true) -> filter p l = l.
Proof.
  induction l as [|x l IH]; intros Hall; simpl; [reflexivity|].
  rewrite (Hall x (or_introl eq_refl)), IH; [reflexivity|].
  intros y Hy. apply Hall. now right.
Qed.

Lemma filtered_keys_unique {V : Type} (keep : string * V -> bool)
      (d : list (string * V)) :
  NoDup (map fst d) -> NoDup (map fst (filter keep d)).
Proof.
  induction d as [|[k v] d IH]; intros Hkeys; [exact Hkeys|].
  cbn [filter]. apply NoDup_cons_iff in Hkeys as [Hfresh Hrest].
  destruct (keep (k, v)); [|now apply IH].
  cbn [map fst]. apply NoDup_cons; [|now apply IH].
  intros Hin. apply Hfresh.
  apply in_map_iff in Hin as ([k' v'] & Hk & Hin).
  apply filter_In in Hin as [Hin _].
  apply in_map_iff. now exists (k', v').
Qed.

(** With distinct keys, the direct entries and the entries of the folder
    keys are all the entries of a level. *)
Lemma direct_and_folders_exact {X : Type} (g : merged -> list X)
      (entries : list (string * merged)) :
  g (MList []) = [] ->
  NoDup (map fst entries) ->
  Permutation
    (g (get_or (dict_get BOOKMARKS_KEY entries) (MList []))
       ++ flat_map (fun kv => g (snd kv)) (filter is_folder_entry entries))
    (flat_map (fun kv => g (snd kv)) entries).
Proof.
  intros Hnil. induction entries as [|[k v] es IH]; intros Hnd.
  - simpl. now rewrite Hnil.
  - inversion Hnd as [|? ? Hnotin Hnd']; subst.
    change (dict_get BOOKMARKS_KEY ((k, v) :: es))
      with (if String.eqb BOOKMARKS_KEY k then Some v
            else dict_get BOOKMARKS_KEY es).
    change (filter is_folder_entry ((k, v) :: es))
      with (if negb (String.eqb k BOOKMARKS_KEY)
            then (k, v) :: filter is_folder_entry es
            else filter is_folder_entry es).
    rewrite (String.eqb_sym k).
    destruct (String.eqb BOOKMARKS_KEY k) eqn:Hk;
      cbn [negb get_or flat_map snd].
    + apply String.eqb_eq in Hk. subst k.
      rewrite filter_all; [reflexivity|].
      intros [k' v'] Hin. unfold is_folder_entry. simpl.
      apply negb_true_iff, String.eqb_neq. intros ->.
      apply Hnotin. now apply (in_map fst) in Hin.
    + rewrite Permutation_app_swap_app.
      apply Permutation_app_head. now apply IH.
Qed.

Lemma built_from_in (uuid4 : nat -> string) (lower : string -> string)
      (es : list (string * merged)) (fs : list node) (kv : string * merged) :
  Forall2 (built_from uuid4 lower) es fs ->
  In kv es -> exists f, In f fs /\ built_from uuid4 lower kv f.
Proof.
  induction 1 as [|kv0 f0 es fs Hb _ IH]; intros Hin; [contradiction|].
  destruct Hin as [<- | Hin].
  - exists f0. split; [now left | exact Hb].
  - destruct (IH Hin) as (f & Hf & Hbf). exists f. split; [now right | exact Hbf].
Qed.

Lemma built_from_names (uuid4 : nat -> string) (lower : string -> string)
      (es : list (string * merged)) (fs : list node) :
  Forall2 (built_from uuid4 lower) es fs ->
  map node_name fs = map Some (map fst es).
Proof.
  induction 1 as [|kv nd es fs (children & c & c' & _ & ->) _ IH];
    [reflexivity|].
  simpl. now rewrite IH.
Qed.

Lemma folder_records_built (fs : list node) (items : list bookmark_item) :
  Forall (fun nd => type_is nd "folder" = true) fs ->
  folder_records (fs ++ map item_node items) = fs.
Proof.
  intros Hfs. unfold folder_records. rewrite filter_app.
  rewrite filter_all by (now apply Forall_forall).
  assert (Hitems : filter (fun nd => type_is nd "folder") (map item_node items)
                   = []).
  { induction items as [|b items IH]; [reflexivity | exact IH]. }
  now rewrite Hitems, app_nil_r.
Qed.

Section Exact.
Variable uuid4 : nat -> string.
Variable lower : string -> string.

Lemma built_from_entries_exact (es : list (string * merged)) (fs : list node) :
  Forall (fun kv => forall calls tree calls',
            build_chrome_json_structure uuid4 lower (snd kv) calls
            = Some (tree, calls') ->
            Permutation (tree_entries tree) (entry_nodes kv)) es ->
  Forall2 (built_from uuid4 lower) es fs ->
  Permutation (tree_entries fs) (flat_map entry_nodes es).
Proof.
  intros Hall H2.
  induction H2 as [|kv nd es fs (children & c & c' & Hb & ->) _ IH].
  - reflexivity.
  - inversion Hall as [|? ? Hkv Hes]; subst.
    rewrite tree_entries_folder. cbn [flat_map].
    apply Permutation_app; [exact (Hkv _ _ _ Hb) | exact (IH Hes)].
Qed.

(** The shape of a built level: the folder records in order, then the
    direct entries in order. *)
Lemma build_level (entries : list (string * merged)) (calls : nat)
      (tree : list node) (calls' : nat) :
  build_chrome_json_structure uuid4 lower (MDict entries) calls
  = Some (tree, calls') ->
  exists fs,
    Forall2 (built_from uuid4 lower) (folder_order lower entries) fs
    /\ tree = fs ++ map item_node
                        (sorted_by (item_sort_key lower)
                                   (direct_items (MDict entries)))
    /\ all_items (get_or (dict_get BOOKMARKS_KEY entries) (MList []))
       = direct_items (MDict entries).
Proof.
  rewrite build_dict. fold (folder_order lower entries).
  destruct (add_folders uuid4 _ [] calls) as [[fs k]|] eqn:Hfs;
    [|discriminate].
  apply add_folders_spec in Hfs as [fs' [-> Hbuilt]]. simpl app.
  intros Htree. exists fs'. split; [exact Hbuilt|].
  unfold direct_items.
  destruct (dict_get BOOKMARKS_KEY entries) as [[[|e es]|[|b items]]|];
    cbn [get_or] in *; inversion Htree; subst;
      rewrite ?app_nil_r; auto.
Qed.

(** The builder neither drops nor repeats an entry. *)
Lemma build_exact (m : merged) :
  unique_keys m ->
  forall calls tree calls',
    build_chrome_json_structure uuid4 lower m calls = Some (tree, calls') ->
    Permutation (tree_entries tree) (map item_node (all_items m)).
Proof.
  induction m as [items | entries IH] using merged_induction;
    [discriminate|].
  intros Huk calls tree calls' Hbuild.
  inversion Huk as [|? Hnd Hall]; subst.
  apply build_level in Hbuild as (fs & Hbuilt & -> & Hdirect).
  assert (Hfolders :
            Permutation (tree_entries fs)
              (flat_map entry_nodes (filter is_folder_entry entries))).
  { rewrite <- (Permutation_flat_map entry_nodes
                  (SortFacts.sorted_by_perm
                     (fun kv : string * merged => lower (fst kv))
                     (filter is_folder_entry entries))).
    apply built_from_entries_exact; [|exact Hbuilt].
    apply Forall_forall. intros kv Hin.
    apply BuilderOrder.folder_entries_in in Hin as [Hin _].
    rewrite Forall_forall in IH, Hall. exact (IH kv Hin (Hall kv Hin)). }
  pose proof (direct_and_folders_exact
                (fun v => map item_node (all_items v)) entries eq_refl Hnd)
    as Hlevel.
  rewrite all_items_dict, map_flat_map.
  change (fun kv : string * merged => map item_node (all_items (snd kv)))
    with entry_nodes in Hlevel |- *.
  rewrite <- Hlevel, tree_entries_app, tree_entries_items, Hfolders.
  rewrite Permutation_app_comm. apply Permutation_app_tail.
  apply Permutation_map.
  rewrite (SortFacts.sorted_by_perm (item_sort_key lower)).
  now rewrite Hdirect.
Qed.

End Exact.
End BuilderExact.

Module BuilderPlaces.
Import DictFacts BuilderFacts BuilderExact.

Lemma built_from_origin (uuid4 : nat -> string) (lower : string -> string)
      (es : list (string * merged)) (fs : list node) (f : node) :
  Forall2 (built_from uuid4 lower) es fs ->
  In f fs -> exists kv, In kv es /\ built_from uuid4 lower kv f.
Proof.
  induction 1 as [|kv0 f0 es fs Hb _ IH]; intros Hin; [contradiction|].
  destruct Hin as [<- | Hin].
  - exists kv0. split; [now left | exact Hb].
  - destruct (IH Hin) as (kv & Hkv & Hbf).
    exists kv. split; [now right | exact Hbf].
Qed.

Lemma folder_order_in (lower : string -> string)
      (entries : list (string * merged)) (kv : string * merged) :
  In kv entries -> is_folder_entry kv = true ->
  In kv (folder_order lower entries).
Proof.
  intros Hin Hfolder. unfold folder_order.
  eapply Permutation_in;
    [symmetry; apply (SortFacts.sorted_by_perm
                        (fun kv : string * merged => lower (fst kv)))|].
  apply filter_In. now split.
Qed.

Section Places.
Variable uuid4 : nat -> string.
Variable lower : string -> string.

(** An item filed at a path of the merge structure sits, in the built tree,
    in the folder reached along the same names. *)
Lemma build_located (path : list string) :
  forall m calls tree calls' items b,
    build_chrome_json_structure uuid4 lower m calls = Some (tree, calls') ->
    entries_at path m = Some items -> In b items ->
    located tree path (item_node b).
Proof.
  induction path as [|s rest IH];
    intros [entries | old] calls tree calls' items b Hbuild;
    try discriminate; cbn [entries_at].
  - destruct (dict_get BOOKMARKS_KEY entries) as [[es | direct]|] eqn:Hget;
      try discriminate.
    intros Hitems Hb. inversion Hitems; subst direct.
    apply build_level in Hbuild as (fs & _ & -> & _).
    apply located_here; [|reflexivity].
    apply in_or_app. right. apply in_map.
    eapply Permutation_in;
      [symmetry; apply (SortFacts.sorted_by_perm (item_sort_key lower))|].
    unfold direct_items. now rewrite Hget.
  - destruct (dict_get s entries) as [level|] eqn:Hget; [|discriminate].
    intros Hitems Hb.
    destruct (String.eqb s BOOKMARKS_KEY) eqn:Hs.
    { exfalso. apply String.eqb_eq in Hs. subst s.
      destruct (buildable (MDict entries)) eqn:Hbuildable.
      - rewrite FilingSafety.buildable_dict, Hget in Hbuildable.
        cbn [get_or] in Hbuildable.
        destruct level as [[|e es]|direct].
        + now rewrite FilingFacts.entries_at_empty in Hitems.
        + now rewrite andb_false_r in Hbuildable.
        + destruct rest; discriminate.
      - rewrite (proj2 (BuilderMore.build_buildable lower _ uuid4)
                       Hbuildable calls) in Hbuild. discriminate. }
    apply build_level in Hbuild as (fs & Hbuilt & -> & _).
    destruct (built_from_in uuid4 lower _ fs (s, level) Hbuilt)
      as (f & Hf & children & c & c' & Hchildren & ->).
    { apply folder_order_in; [now apply dict_get_in|].
      unfold is_folder_entry. simpl. now rewrite Hs. }
    simpl fst in Hf. simpl snd in Hchildren.
    apply (located_below _ s rest (item_node b)
                         (folder_record s children (uuid4 c')) children);
      [apply in_or_app; now left | reflexivity | reflexivity | reflexivity |].
    exact (IH _ _ _ _ _ _ Hchildren Hitems Hb).
Qed.

(** With distinct keys in the merge structure, the folders of each level of
    the built tree have distinct names. *)
Lemma build_folders_merged (m : merged) :
  unique_keys m ->
  forall calls tree calls',
    build_chrome_json_structure uuid4 lower m calls = Some (tree, calls') ->
    folders_merged tree.
Proof.
  induction m as [items | entries IH] using merged_induction;
    [discriminate|].
  intros Huk calls tree calls' Hbuild.
  inversion Huk as [|? Hnd Hall]; subst.
  apply build_level in Hbuild as (fs & Hbuilt & -> & _).
  destruct (built_from_label lower uuid4 _ fs Hbuilt) as [_ Hfolders].
  constructor.
  - rewrite folder_records_built by assumption.
    rewrite (built_from_names uuid4 lower _ fs Hbuilt).
    apply Multiset.nodup_map_some.
    apply (Permutation_NoDup
             (Permutation_map fst
                (Permutation_sym
                   (SortFacts.sorted_by_perm
                      (fun kv : string * merged => lower (fst kv))
                      (filter is_folder_entry entries))))).
    now apply filtered_keys_unique.
  - apply Forall_forall. intros nd Hin children Hchildren.
    apply in_app_or in Hin as [Hin | Hin].
    + destruct (built_from_origin uuid4 lower _ fs nd Hbuilt Hin)
        as (kv & Hkv & cs & c & c' & Hcs & ->).
      simpl in Hchildren. inversion Hchildren; subst cs.
      apply BuilderOrder.folder_entries_in in Hkv as [Hkv _].
      rewrite Forall_forall in IH, Hall.
      exact (IH kv Hkv (Hall kv Hkv) _ _ _ Hcs).
    + apply in_map_iff in Hin as (b & <- & _). discriminate.
Qed.

End Places.
End BuilderPlaces.

(** ** The collector, further *)

Module CollectorMore.
Import Multiset.

Section More.
Variable uuid4 : nat -> string.

(** What one visit does to the state: nothing, or one item filed. *)
Lemma collect_url_cases (x : node) (path : list string)
      (st st' : collector_state) :
  collect_url uuid4 x path st = Some st' ->
  st' = st
  \/ exists u collected',
      node_url x = Some u
      /\ skipped_url (Some u) = false
      /\ ~ In u (seen_urls st)
      /\ file_item (get_canonical_path_segments path)
                   (new_bookmark_item uuid4 x u (uuid_calls st))
                   (collected_bookmarks st) = Some collected'
      /\ st' = {| collected_bookmarks := collected';
                  seen_urls := u :: seen_urls st;
                  uuid_calls := S (uuid_calls st) |}.
Proof.
  unfold collect_url.
  destruct (skipped_url (node_url x)) eqn:Hskip.
  { intros H. inversion H. now left. }
  destruct (node_url x) as [u|] eqn:Hurl; [|discriminate]. simpl.
  destruct (in_names u (seen_urls st)) eqn:Hseen.
  { intros H. inversion H. now left. }
  destruct (file_item _ _ (collected_bookmarks st)) as [collected'|] eqn:Hfile;
    [|discriminate].
  intros H. inversion H; subst. right. exists u, collected'.
  repeat split; try assumption. now apply in_names_false.
Qed.

Lemma books_initial : collector_books initial_state.
Proof.
  repeat split; simpl; auto. constructor; constructor.
Qed.

Lemma books_step (x : node) (path : list string) (st st' : collector_state) :
  collector_books st ->
  collect_url uuid4 x path st = Some st' ->
  collector_books st'.
Proof.
  intros (Hkeys & Hseen & Hcalls) Hstep.
  apply collect_url_cases in Hstep
    as [-> | (u & collected' & _ & _ & _ & Hfile & ->)];
    [now repeat split|].
  split; [|split]; simpl.
  - exact (FilingFacts.file_item_unique_keys _ _ _ _ Hkeys Hfile).
  - apply CollectorInvariant.file_item_perm in Hfile.
    rewrite (Permutation_map item_url Hfile). simpl. now constructor.
  - now rewrite Hcalls.
Qed.

Lemma books_collect_all (vs : list (list string * node)) :
  forall st st',
    collector_books st -> collect_all uuid4 vs st = Some st' ->
    collector_books st'.
Proof.
  induction vs as [|[path x] vs IH]; intros st st' Hbooks; simpl.
  - intros H. inversion H. now subst.
  - destruct (collect_url uuid4 x path st) as [st1|] eqn:Hstep;
      [|discriminate].
    apply IH. exact (books_step x path st st1 Hbooks Hstep).
Qed.

Lemma books_scan_roots (roots : list (string * node)) (st : collector_state) :
  scan_roots uuid4 roots initial_state = Some st -> collector_books st.
Proof.
  rewrite CollectorFacts.scan_roots_visits.
  apply books_collect_all, books_initial.
Qed.

Lemma filed_first_later (vs : list (list string * node))
      (v : list string * node) (m m' : merged) (b : bookmark_item) :
  (forall q items, entries_at q m = Some items ->
                   exists items', entries_at q m' = Some items'
                                  /\ incl items items') ->
  filed_first vs m b -> filed_first (vs ++ [v]) m' b.
Proof.
  intros Hkeeps (before & path & x & after & -> & Hok & Hurl & Hfirst
                 & items & Hat & Hin).
  destruct (Hkeeps _ _ Hat) as (items' & Hat' & Hincl).
  exists before, path, x, (after ++ [v]).
  split; [now rewrite <- app_assoc|].
  repeat split; try assumption.
  exists items'. split; [exact Hat' | now apply Hincl].
Qed.

Lemma filing_step (vs : list (list string * node)) (path : list string)
      (x : node) (st st' : collector_state) :
  collector_invariant vs st ->
  (forall b, In b (all_items (collected_bookmarks st)) ->
             filed_first vs (collected_bookmarks st) b) ->
  collect_url uuid4 x path st = Some st' ->
  forall b, In b (all_items (collected_bookmarks st')) ->
            filed_first (vs ++ [(path, x)]) (collected_bookmarks st') b.
Proof.
  intros (Hseen & _ & _) Hfiled Hstep.
  apply collect_url_cases in Hstep
    as [-> | (u & collected' & Hurl & Hok & Hnew & Hfile & ->)].
  - intros b Hb. apply (filed_first_later vs _ (collected_bookmarks st));
      [|now apply Hfiled].
    intros q items Hat. exists items. split; [exact Hat | apply incl_refl].
  - simpl. intros b Hb.
    apply (Permutation_in _ (CollectorInvariant.file_item_perm _ _ _ _ Hfile))
      in Hb as [<- | Hold].
    + exists vs, path, x, []. split; [reflexivity|].
      split; [now rewrite Hurl|]. split; [exact Hurl|].
      split.
      * intros q y Hin Hy. apply Hnew.
        apply (Hseen q y u Hin); [|exact Hy]. now rewrite Hy.
      * eexists. split;
          [exact (FilingFacts.file_item_entries_at _ _ _ _ Hfile)|].
        apply in_or_app. right. now left.
    + apply (filed_first_later vs _ (collected_bookmarks st));
        [|now apply Hfiled].
      intros q items. exact (FilingFacts.file_item_keeps _ _ _ _ q items Hfile).
Qed.

Lemma filing_collect_all (vs : list (list string * node)) :
  forall vs0 st st',
    collector_invariant vs0 st ->
    (forall b, In b (all_items (collected_bookmarks st)) ->
               filed_first vs0 (collected_bookmarks st) b) ->
    collect_all uuid4 vs st = Some st' ->
    forall b, In b (all_items (collected_bookmarks st')) ->
              filed_first (vs0 ++ vs) (collected_bookmarks st') b.
Proof.
  induction vs as [|[path x] vs IH]; intros vs0 st st' Hinv Hfiled; simpl.
  - intros H. inversion H; subst. now rewrite app_nil_r.
  - destruct (collect_url uuid4 x path st) as [st1|] eqn:Hstep;
      [|discriminate].
    intros Hrest.
    change ((path, x) :: vs) with ([(path, x)] ++ vs). rewrite app_assoc.
    apply (IH _ st1); [| |exact Hrest].
    + exact (CollectorInvariant.invariant_step uuid4 vs0 path x st st1
                                               Hinv Hstep).
    + exact (filing_step vs0 path x st st1 Hinv Hfiled Hstep).
Qed.

Lemma filing_scan_roots (roots : list (string * node)) (st : collector_state) :
  scan_roots uuid4 roots initial_state = Some st ->
  forall b, In b (all_items (collected_bookmarks st)) ->
            filed_first (root_visits roots) (collected_bookmarks st) b.
Proof.
  rewrite CollectorFacts.scan_roots_visits. intros Hscan.
  apply (filing_collect_all _ [] initial_state st
                            (CollectorInvariant.invariant_initial));
    [|exact Hscan].
  intros b [].
Qed.

End More.
End CollectorMore.

Module CollectorBounds.

(** The depth guard bounds the path of every visit. *)
Lemma visits_bound (nd : node) :
  forall path depth p x,
    In (p, x) (visits nd path depth) ->
    List.length p + depth <= List.length path + MAX_RECURSION_DEPTH.
Proof.
  induction nd as [t n u g da dm | t n u g da dm children IH]
    using CollectorFacts.node_induction; intros path depth p x; simpl.
  - destruct (Nat.ltb MAX_RECURSION_DEPTH depth) eqn:Hd; [contradiction|].
    apply Nat.ltb_ge in Hd.
    destruct (type_is _ "url").
    + intros [H | []]. inversion H; subst. lia.
    + destruct (type_is _ "folder"); contradiction.
  - destruct (Nat.ltb MAX_RECURSION_DEPTH depth) eqn:Hd; [contradiction|].
    apply Nat.ltb_ge in Hd.
    destruct (type_is _ "url").
    + intros [H | []]. inversion H; subst. lia.
    + destruct (type_is _ "folder"); [|contradiction].
      intros Hin. apply in_flat_map in Hin as (c & Hc & Hin).
      rewrite Forall_forall in IH. specialize (IH c Hc _ _ _ _ Hin).
      assert (Hnext : List.length
                        (next_path_parts (Node t n u g da dm (Some children))
                                         path) <= S (List.length path)).
      { unfold next_path_parts. simpl.
        destruct n as [[|a s]|]; rewrite ?length_app; simpl; lia. }
      lia.
Qed.

Lemma root_visits_in (roots : list (string * node)) (p : list string)
      (x : node) :
  In (p, x) (root_visits roots) ->
  exists k nd, In (k, nd) roots /\ is_chrome_root k = true
               /\ In (p, x) (visits nd [k] 0).
Proof.
  unfold root_visits. intros Hin.
  apply in_flat_map in Hin as ([k nd] & Hroot & Hin). simpl in Hin.
  destruct (is_chrome_root k) eqn:Hk; [|contradiction].
  now exists k, nd.
Qed.

End CollectorBounds.

Module CollectorSafety.

Section Safety.
Variable uuid4 : nat -> string.


(** The seen URLs are URLs of visited entries. *)
Lemma seen_from_visits (vs : list (list string * node)) :
  forall st st' u,
    collect_all uuid4 vs st = Some st' ->
    In u (seen_urls st') ->
    In u (seen_urls st)
    \/ exists q y, In (q, y) vs /\ node_url y = Some u.
Proof.
  induction vs as [|[path x] vs IH]; intros st st' u; simpl.
  - intros H. inversion H; subst. now left.
  - destruct (collect_url uuid4 x path st) as [st1|] eqn:Hstep;
      [|discriminate].
    intros Hrest Hu.
    destruct (IH _ _ _ Hrest Hu) as [Hseen1 | (q & y & Hin & Hy)].
    + apply CollectorMore.collect_url_cases in Hstep
        as [-> | (u' & c' & Hurl & _ & _ & _ & ->)]; [now left|].
      destruct Hseen1 as [<- | Hold]; [|now left].
      right. exists path, x. split; [now left | exact Hurl].
    + right. exists q, y. split; [now right | exact Hy].
Qed.

(** A merge structure that is not empty and cannot be built stays so. *)
Lemma spoiled_collect_all (vs : list (list string * node)) :
  forall st st',
    collect_all uuid4 vs st = Some st' ->
    buildable (collected_bookmarks st) = false ->
    truthy (collected_bookmarks st) = true ->
    buildable (collected_bookmarks st') = false
    /\ truthy (collected_bookmarks st') = true.
Proof.
  induction vs as [|[path x] vs IH]; intros st st'; simpl.
  - intros H. inversion H; subst. now split.
  - destruct (collect_url uuid4 x path st) as [st1|] eqn:Hstep;
      [|discriminate].
    intros Hrest Hb Ht. apply (IH _ _ Hrest).
    + apply CollectorMore.collect_url_cases in Hstep
        as [-> | (u & c' & _ & _ & _ & Hfile & ->)]; [exact Hb|].
      simpl. apply not_true_is_false. intros Hb'.
      rewrite (FilingSafety.file_item_buildable _ _ _ _ Hfile Hb') in Hb.
      discriminate.
    + apply CollectorMore.collect_url_cases in Hstep
        as [-> | (u & c' & _ & _ & _ & Hfile & ->)]; [exact Ht|].
      simpl. now destruct (FilingFacts.file_item_dict _ _ _ _ Hfile)
        as (e & es & ->).
Qed.

(** When the first visit of a URL has a canonical path with the name
    ["_bookmarks"], a scan that ends leaves a structure that is not empty
    and cannot be built. *)
Lemma sentinel_spoils (before after : list (list string * node))
      (path : list string) (x : node) (u : string) (st : collector_state) :
  node_url x = Some u ->
  skipped_url (Some u) = false ->
  (forall q y, In (q, y) before -> node_url y <> Some u) ->
  In BOOKMARKS_KEY (get_canonical_path_segments path) ->
  collect_all uuid4 (before ++ (path, x) :: after) initial_state = Some st ->
  buildable (collected_bookmarks st) = false
  /\ truthy (collected_bookmarks st) = true.
Proof.
  intros Hurl Hok Hfirst Hkey. rewrite CollectorFacts.collect_all_app.
  destruct (collect_all uuid4 before initial_state) as [st1|] eqn:Hbefore;
    [|discriminate].
  simpl. destruct (collect_url uuid4 x path st1) as [st2|] eqn:Hstep;
    [|discriminate].
  intros Hafter.
  unfold collect_url in Hstep. rewrite Hurl, Hok in Hstep. simpl in Hstep.
  assert (Hnew : in_names u (seen_urls st1) = false).
  { apply in_names_false. intros Hseen.
    destruct (seen_from_visits _ _ _ u Hbefore Hseen)
      as [[] | (q & y & Hin & Hy)].
    exact (Hfirst q y Hin Hy). }
  rewrite Hnew in Hstep.
  destruct (file_item _ _ (collected_bookmarks st1)) as [c2|] eqn:Hfile;
    [|discriminate].
  inversion Hstep; subst. apply (spoiled_collect_all _ _ _ Hafter); simpl.
  - exact (FilingSafety.file_item_sentinel _ _ _ _ Hkey Hfile).
  - now destruct (FilingFacts.file_item_dict _ _ _ _ Hfile) as (e & es & ->).
Qed.

End Safety.
End CollectorSafety.

(** ** The run, further *)

Module RunMore.
Import DictFacts.

Lemma clear_roots_get (k : string) (roots : list (string * node)) :
  dict_get k (clear_roots roots)
  = option_map (fun nd => snd (clear_root (k, nd))) (dict_get k roots).
Proof.
  induction roots as [|[k' nd] roots IH]; [reflexivity|].
  change (clear_roots ((k', nd) :: roots))
    with (clear_root (k', nd) :: clear_roots roots).
  pose proof (clear_root_key (k', nd)) as Hfst.
  destruct (clear_root (k', nd)) as [k'' nd'] eqn:Hclear.
  simpl in Hfst. subst k''. cbn [dict_get].
  destruct (String.eqb k k') eqn:Hk; [|exact IH].
  apply String.eqb_eq in Hk. subst k'. cbn [option_map].
  now rewrite Hclear.
Qed.

Lemma clear_roots_fst (roots : list (string * node)) :
  map fst (clear_roots roots) = map fst roots.
Proof.
  unfold clear_roots. rewrite map_map. apply map_ext.
  intros kv. apply clear_root_key.
Qed.

Lemma destination_not_marker : is_chrome_root DESTINATION_ROOT_NAME = false.
Proof. reflexivity. Qed.

Lemma marker_not_destination (k : string) :
  is_chrome_root k = true -> k <> DESTINATION_ROOT_NAME.
Proof. intros Hk ->. discriminate. Qed.

Section Run.
Variable uuid4 : nat -> string.
Variable lower : string -> string.

(** A run that saves: what it went through and what it saves. *)
Lemma main_saved_document (bookmark_data d : document) :
  run_saved (main uuid4 lower bookmark_data) = Some d ->
  exists roots st tree calls,
    doc_roots bookmark_data = Some roots
    /\ roots <> []
    /\ scan_roots uuid4 roots initial_state = Some st
    /\ build_chrome_json_structure uuid4 lower (collected_bookmarks st)
                                   (uuid_calls st) = Some (tree, calls)
    /\ dict_has DESTINATION_ROOT_NAME roots = true
    /\ d = Document (Some (place_children tree (clear_roots roots)))
    /\ main uuid4 lower bookmark_data = Run Success d (Some d).
Proof.
  unfold main.
  destruct (doc_roots bookmark_data) as [[|r rs]|] eqn:Hroots;
    try discriminate.
  remember (r :: rs) as roots.
  destruct (scan_roots uuid4 roots initial_state) as [st|] eqn:Hscan;
    [|discriminate].
  destruct (negb (truthy (collected_bookmarks st))); [discriminate|].
  destruct (build_chrome_json_structure uuid4 lower (collected_bookmarks st)
              (uuid_calls st)) as [[tree calls]|] eqn:Hbuild; [|discriminate].
  destruct (dict_has DESTINATION_ROOT_NAME (clear_roots roots)) eqn:Hdest;
    [|discriminate].
  simpl. intros H. inversion H; subst d.
  exists roots, st, tree, calls.
  rewrite clear_roots_keys in Hdest.
  repeat split; try assumption; try reflexivity.
  subst roots. discriminate.
Qed.

(** The saved tree with what the scan left. *)
Lemma saved_tree (bookmark_data d : document) (roots : list (string * node))
      (tree : list node) :
  doc_roots bookmark_data = Some roots ->
  run_saved (main uuid4 lower bookmark_data) = Some d ->
  destination_children d = Some tree ->
  exists st calls,
    scan_roots uuid4 roots initial_state = Some st
    /\ build_chrome_json_structure uuid4 lower (collected_bookmarks st)
                                   (uuid_calls st) = Some (tree, calls).
Proof.
  intros Hroots Hsaved Hdest.
  apply main_saved_document in Hsaved
    as (roots' & st & tree' & calls & Hroots' & _ & Hscan & Hbuild & Hhas
        & -> & _).
  assert (roots' = roots) by congruence. subst roots'.
  rewrite RunFacts.placed_children in Hdest
    by (now rewrite clear_roots_keys).
  inversion Hdest; subst tree'. now exists st, calls.
Qed.

End Run.
End RunMore.

(** ** [collect_bookmarks_recursively] and the walk into the merge structure *)

(** X5.  The path accumulated at any entry the collector visits has at most
    [MAX_RECURSION_DEPTH + 1] segments, and so has its canonical path. *)
Theorem visited_paths_bounded (roots : list (string * node))
        (path : list string) (x : node) :
  In (path, x) (root_visits roots) ->
  List.length path <= S MAX_RECURSION_DEPTH
  /\ List.length (get_canonical_path_segments path) <= S MAX_RECURSION_DEPTH.
Proof.
  intros Hin.
  apply CollectorBounds.root_visits_in in Hin as (k & nd & _ & _ & Hin).
  apply CollectorBounds.visits_bound in Hin. simpl in Hin.
  pose proof (proj2 (CanonicalizerShape.canonical_within path)) as Hlen.
  split; lia.
Qed.

Lemma visited_paths_bounded_witness :
  List.length ["Bookmarks Bar"; "Work"; "A"] <= S MAX_RECURSION_DEPTH
  /\ List.length (get_canonical_path_segments ["Bookmarks Bar"; "Work"; "A"])
     <= S MAX_RECURSION_DEPTH.
Proof.
  apply (visited_paths_bounded
           (basic_merge_roots "http://x" "first" "second")
           ["Bookmarks Bar"; "Work"; "A"] (url_entry "first" "http://x")).
  left. reflexivity.
Defined.

(** X6.  When filing an item raises nothing, the item is the last of the
    entry list at its path, the merge structure holds that item more and
    nothing else, and every entry list keeps what it held. *)
Theorem filing_round_trip (path : list string) (b : bookmark_item)
        (m m' : merged) :
  file_item path b m = Some m' ->
  entries_at path m' = Some (get_or (entries_at path m) [] ++ [b])
  /\ Permutation (all_items m') (b :: all_items m)
  /\ forall q items,
      entries_at q m = Some items ->
      exists items', entries_at q m' = Some items' /\ incl items items'.
Proof.
  intros Hfile. split; [|split].
  - exact (FilingFacts.file_item_entries_at _ _ _ _ Hfile).
  - exact (CollectorInvariant.file_item_perm _ _ _ _ Hfile).
  - intros q items. exact (FilingFacts.file_item_keeps _ _ _ _ q items Hfile).
Qed.

Lemma filing_round_trip_witness :
  let b := BookmarkItem "Late" "http://l" "g3" "0" in
  let m' :=
    MDict [("work", MDict [(BOOKMARKS_KEY,
                            MList [BookmarkItem "Tracker" "http://t" "g0" "0";
                                   b])]);
           (BOOKMARKS_KEY, MList [BookmarkItem "news" "http://n" "g1" "0";
                                  BookmarkItem "Mail" "http://m" "g2" "0"]);
           ("Archive", MDict [])] in
  entries_at ["work"] m'
  = Some (get_or (entries_at ["work"] example_level) [] ++ [b])
  /\ Permutation (all_items m') (b :: all_items example_level)
  /\ forall q items,
      entries_at q example_level = Some items ->
      exists items', entries_at q m' = Some items' /\ incl items items'.
Proof.
  intros b m'. apply (filing_round_trip ["work"] b example_level m').
  reflexivity.
Defined.



(** X8.  When the first visited entry with some collectable URL has the name
    ["_bookmarks"] in its canonical path, the run ends with an exception
    and saves nothing. *)
Theorem sentinel_folder_raises
        (uuid4 : nat -> string) (lower : string -> string)
        (bookmark_data : document) (roots : list (string * node))
        (before after : list (list string * node))
        (path : list string) (x : node) (u : string) :
  doc_roots bookmark_data = Some roots ->
  root_visits roots = before ++ (path, x) :: after ->
  node_url x = Some u ->
  skipped_url (Some u) = false ->
  (forall q y, In (q, y) before -> node_url y <> Some u) ->
  In BOOKMARKS_KEY (get_canonical_path_segments path) ->
  run_outcome (main uuid4 lower bookmark_data) = Uncaught
  /\ run_saved (main uuid4 lower bookmark_data) = None.
Proof.
  intros Hroots Hvisits Hurl Hok Hfirst Hkey. unfold main. rewrite Hroots.
  destruct roots as [|r rs]; [now destruct before|].
  remember (r :: rs) as roots'.
  rewrite CollectorFacts.scan_roots_visits.
  destruct (collect_all uuid4 (root_visits roots') initial_state)
    as [st|] eqn:Hscan; [|now split].
  rewrite Hvisits in Hscan.
  destruct (CollectorSafety.sentinel_spoils uuid4 before after path x u st
              Hurl Hok Hfirst Hkey Hscan) as [Hspoiled Htruthy].
  rewrite Htruthy. simpl.
  rewrite (proj2 (BuilderMore.build_buildable lower _ uuid4) Hspoiled).
  now split.
Qed.

Lemma sentinel_folder_raises_witness :
  run_outcome (main numbered_guid lower_ascii sentinel_document) = Uncaught
  /\ run_saved (main numbered_guid lower_ascii sentinel_document) = None.
Proof.
  apply (sentinel_folder_raises numbered_guid lower_ascii sentinel_document
           [("bookmark_bar", folder (Some "Bookmarks bar") []);
            ("Bookmarks Bar",
             folder None [folder (Some "_bookmarks")
                                 [url_entry "Example" "http://example.org"]])]
           [] [] ["Bookmarks Bar"; "_bookmarks"]
           (url_entry "Example" "http://example.org") "http://example.org").
  - reflexivity.
  - reflexivity.
  - reflexivity.
  - reflexivity.
  - intros q y [].
  - left. reflexivity.
Defined.

(** ** [build_chrome_json_structure] *)

(** X9.  The builder returns a tree exactly when every folder key, at
    every level, holds a dict and no level has a dict with entries under
    ["_bookmarks"]; otherwise it raises. *)
Theorem builder_returns_iff_buildable
        (uuid4 : nat -> string) (lower : string -> string)
        (m : merged) (calls : nat) :
  (exists tree calls',
      build_chrome_json_structure uuid4 lower m calls = Some (tree, calls'))
  <-> buildable m = true.
Proof.
  destruct (BuilderMore.build_buildable lower m uuid4) as [Hyes Hno].
  split.
  - intros (tree & calls' & Hbuild).
    destruct (buildable m); [reflexivity|].
    rewrite (Hno eq_refl calls) in Hbuild. discriminate.
  - intros Hb. exact (Hyes Hb calls).
Qed.

(** X10.  On a merge structure whose dicts have distinct keys, the entries
    of the built tree are the items of the structure, each once. *)
Theorem builder_keeps_every_entry
        (uuid4 : nat -> string) (lower : string -> string)
        (m : merged) (calls : nat) (tree : list node) (calls' : nat) :
  unique_keys m ->
  build_chrome_json_structure uuid4 lower m calls = Some (tree, calls') ->
  Permutation (tree_entries tree) (map item_node (all_items m)).
Proof.
  intros Hkeys Hbuild.
  exact (BuilderExact.build_exact uuid4 lower m Hkeys calls tree calls' Hbuild).
Qed.

Lemma builder_keeps_every_entry_witness :
  exists tree calls',
    build_chrome_json_structure numbered_guid lower_ascii example_level 0
    = Some (tree, calls')
    /\ Permutation (tree_entries tree)
                   (map item_node (all_items example_level)).
Proof.
  eexists. eexists. split; [cbv; reflexivity|].
  eapply (builder_keeps_every_entry numbered_guid lower_ascii example_level 0).
  - repeat constructor; simpl; intuition discriminate.
  - cbv. reflexivity.
Defined.

(** ** The saved tree and the saved document *)

(** X11.  Every entry of the saved destination tree is a URL record with a
    name, an identifier and a date, and its URL is neither empty nor a
    [javascript:] one. *)
Theorem saved_entries_collectable
        (uuid4 : nat -> string) (lower : string -> string)
        (bookmark_data d : document) (tree : list node) (e : node) :
  run_saved (main uuid4 lower bookmark_data) = Some d ->
  destination_children d = Some tree ->
  In e (tree_entries tree) ->
  type_is e "url" = true
  /\ skipped_url (node_url e) = false
  /\ (exists name, node_name e = Some name)
  /\ (exists guid, node_guid e = Some guid)
  /\ (exists date, node_date_added e = Some date).
Proof.
  intros Hsaved Hdest He.
  apply RunFacts.main_saved in Hsaved
    as (roots & st & tree' & calls & _ & Hscan & Hbuild & Hdest').
  assert (tree' = tree) by congruence. subst tree'.
  destruct (proj2 (RunFacts.built_tree_entries uuid4 lower roots st tree calls
                                               Hscan Hbuild) e He)
    as (b & -> & before & path & x & after & _ & Hok & Hurl & _).
  simpl. rewrite Hurl in Hok. repeat split; eauto.
Qed.

Lemma saved_entries_collectable_witness :
  type_is basic_merge_entry "url" = true
  /\ skipped_url (node_url basic_merge_entry) = false
  /\ (exists name, node_name basic_merge_entry = Some name)
  /\ (exists guid, node_guid basic_merge_entry = Some guid)
  /\ (exists date, node_date_added basic_merge_entry = Some date).
Proof.
  apply (saved_entries_collectable numbered_guid lower_ascii
           (basic_merge_document "http://x" "first" "second")
           basic_merge_saved basic_merge_tree basic_merge_entry).
  - reflexivity.
  - reflexivity.
  - left. reflexivity.
Defined.

(** X12.  Nothing is lost: for every visited entry whose URL is neither
    missing, empty nor a [javascript:] one, the saved destination tree has
    an entry with that URL. *)
Theorem every_collectable_url_saved
        (uuid4 : nat -> string) (lower : string -> string)
        (bookmark_data d : document) (roots : list (string * node))
        (tree : list node) (path : list string) (x : node) (u : string) :
  doc_roots bookmark_data = Some roots ->
  run_saved (main uuid4 lower bookmark_data) = Some d ->
  destination_children d = Some tree ->
  In (path, x) (root_visits roots) ->
  node_url x = Some u ->
  skipped_url (Some u) = false ->
  exists e, In e (tree_entries tree) /\ node_url e = Some u.
Proof.
  intros Hroots Hsaved Hdest Hin Hurl Hok.
  destruct (RunMore.saved_tree uuid4 lower _ _ _ _ Hroots Hsaved Hdest)
    as (st & calls & Hscan & Hbuild).
  destruct (CollectorInvariant.invariant_scan_roots uuid4 roots st Hscan)
    as (Hseen & _ & _).
  destruct (CollectorMore.books_scan_roots uuid4 roots st Hscan)
    as (Hkeys & Hurls & _).
  assert (Hu : In u (map item_url (all_items (collected_bookmarks st)))).
  { apply (Permutation_in _ Hurls).
    apply (Hseen path x u Hin); [now rewrite Hurl | exact Hurl]. }
  apply in_map_iff in Hu as (b & Hb & Hitem).
  exists (item_node b). split; [|simpl; now rewrite Hb].
  apply (Permutation_in _
           (Permutation_sym (BuilderExact.build_exact uuid4 lower _ Hkeys
                                                      _ _ _ Hbuild))).
  now apply in_map.
Qed.

Lemma every_collectable_url_saved_witness :
  exists e, In e (tree_entries basic_merge_tree)
            /\ node_url e = Some "http://x".
Proof.
  apply (every_collectable_url_saved numbered_guid lower_ascii
           (basic_merge_document "http://x" "first" "second")
           basic_merge_saved
           (basic_merge_roots "http://x" "first" "second")
           basic_merge_tree
           ["Other Bookmarks"; "Work"; "A"] (url_entry "second" "http://x")
           "http://x").
  - reflexivity.
  - reflexivity.
  - reflexivity.
  - right. left. reflexivity.
  - reflexivity.
  - reflexivity.
Defined.

(** X13.  The number of entries of the saved destination tree is the number
    of seen URLs at the end of the scan, the count the run reports as
    unique bookmarks; it is also the number of identifiers drawn by the
    collector. *)
Theorem saved_entry_count
        (uuid4 : nat -> string) (lower : string -> string)
        (bookmark_data d : document) (roots : list (string * node))
        (st : collector_state) (tree : list node) :
  doc_roots bookmark_data = Some roots ->
  scan_roots uuid4 roots initial_state = Some st ->
  run_saved (main uuid4 lower bookmark_data) = Some d ->
  destination_children d = Some tree ->
  List.length (tree_entries tree) = List.length (seen_urls st)
  /\ uuid_calls st = List.length (seen_urls st).
Proof.
  intros Hroots Hscan Hsaved Hdest.
  destruct (RunMore.saved_tree uuid4 lower _ _ _ _ Hroots Hsaved Hdest)
    as (st' & calls & Hscan' & Hbuild).
  assert (st' = st) by congruence. subst st'.
  destruct (CollectorMore.books_scan_roots uuid4 roots st Hscan)
    as (Hkeys & Hurls & Hcalls).
  split; [|exact Hcalls].
  rewrite (Permutation_length
             (BuilderExact.build_exact uuid4 lower _ Hkeys _ _ _ Hbuild)).
  rewrite (Permutation_length Hurls). now rewrite !length_map.
Qed.

Lemma saved_entry_count_witness :
  exists st,
    scan_roots numbered_guid (basic_merge_roots "http://x" "first" "second")
               initial_state = Some st
    /\ List.length (tree_entries basic_merge_tree)
       = List.length (seen_urls st)
    /\ uuid_calls st = List.length (seen_urls st).
Proof.
  eexists. split; [cbv; reflexivity|].
  eapply (saved_entry_count numbered_guid lower_ascii
            (basic_merge_document "http://x" "first" "second")
            basic_merge_saved
            (basic_merge_roots "http://x" "first" "second")).
  - reflexivity.
  - cbv. reflexivity.
  - reflexivity.
  - reflexivity.
Defined.

(** X14.  Every entry of the saved destination tree sits in the folder
    reached along the canonical path of the first visited entry with its
    URL. *)
Theorem entries_filed_under_canonical_path
        (uuid4 : nat -> string) (lower : string -> string)
        (bookmark_data d : document) (roots : list (string * node))
        (tree : list node) (e : node) :
  doc_roots bookmark_data = Some roots ->
  run_saved (main uuid4 lower bookmark_data) = Some d ->
  destination_children d = Some tree ->
  In e (tree_entries tree) ->
  exists before path x after,
    root_visits roots = before ++ (path, x) :: after
    /\ skipped_url (node_url x) = false
    /\ node_url x = node_url e
    /\ (forall q y, In (q, y) before -> node_url y <> node_url e)
    /\ located tree (get_canonical_path_segments path) e.
Proof.
  intros Hroots Hsaved Hdest He.
  destruct (RunMore.saved_tree uuid4 lower _ _ _ _ Hroots Hsaved Hdest)
    as (st & calls & Hscan & Hbuild).
  destruct (proj2 (RunFacts.built_tree_entries uuid4 lower roots st tree calls
                                               Hscan Hbuild) e He)
    as (b & -> & _).
  assert (Hb : In b (all_items (collected_bookmarks st))).
  { pose proof (BuilderEntries.build_entries uuid4 lower _ _ _ _ Hbuild)
      as Hsub.
    apply (Multiset.sub_in _ _ _ Hsub) in He.
    apply in_map_iff in He as (b' & Heq & Hb').
    destruct b' as [n' u' g' d'], b as [n u g dt].
    unfold item_node in Heq. simpl in Heq. inversion Heq; subst.
    exact Hb'. }
  destruct (CollectorMore.filing_scan_roots uuid4 roots st Hscan b Hb)
    as (before & path & x & after & Hvisits & Hok & Hurl & Hfirst
        & items & Hat & Hin).
  exists before, path, x, after. simpl.
  repeat split; try assumption.
  exact (BuilderPlaces.build_located uuid4 lower _ _ _ _ _ _ b
                                     Hbuild Hat Hin).
Qed.

Lemma entries_filed_under_canonical_path_witness :
  exists before path x after,
    root_visits (basic_merge_roots "http://x" "first" "second")
    = before ++ (path, x) :: after
    /\ skipped_url (node_url x) = false
    /\ node_url x = node_url basic_merge_entry
    /\ (forall q y, In (q, y) before ->
                    node_url y <> node_url basic_merge_entry)
    /\ located basic_merge_tree (get_canonical_path_segments path)
               basic_merge_entry.
Proof.
  apply (entries_filed_under_canonical_path numbered_guid lower_ascii
           (basic_merge_document "http://x" "first" "second")
           basic_merge_saved
           (basic_merge_roots "http://x" "first" "second")
           basic_merge_tree basic_merge_entry).
  - reflexivity.
  - reflexivity.
  - reflexivity.
  - left. reflexivity.
Defined.

(** X15.  In the saved destination tree no two folders of one level have
    the same name, at every level: folders with one canonical path are
    merged into one. *)
Theorem saved_folders_merged
        (uuid4 : nat -> string) (lower : string -> string)
        (bookmark_data d : document) (tree : list node) :
  run_saved (main uuid4 lower bookmark_data) = Some d ->
  destination_children d = Some tree ->
  folders_merged tree.
Proof.
  intros Hsaved Hdest.
  apply RunFacts.main_saved in Hsaved
    as (roots & st & tree' & calls & _ & Hscan & Hbuild & Hdest').
  assert (tree' = tree) by congruence. subst tree'.
  destruct (CollectorMore.books_scan_roots uuid4 roots st Hscan)
    as (Hkeys & _).
  exact (BuilderPlaces.build_folders_merged uuid4 lower _ Hkeys _ _ _ Hbuild).
Qed.

Lemma saved_folders_merged_witness : folders_merged basic_merge_tree.
Proof.
  apply (saved_folders_merged numbered_guid lower_ascii
           (basic_merge_document "http://x" "first" "second")
           basic_merge_saved basic_merge_tree);
    reflexivity.
Defined.

Module RunFrame.
Import DictFacts.

(** A recognized root container that is no URL entry and has no child gives
    the collector nothing to do. *)
Lemma idle_scan (uuid4 : nat -> string) (roots : list (string * node)) :
  (forall k nd, In (k, nd) roots -> is_chrome_root k = true ->
                type_is nd "url" = false
                /\ (node_children nd = None \/ node_children nd = Some [])) ->
  forall st, scan_roots uuid4 roots st = Some st.
Proof.
  induction roots as [|[k nd] roots IH]; intros Hidle st; [reflexivity|].
  cbn [scan_roots]. destruct (is_chrome_root k) eqn:Hk.
  - destruct (Hidle k nd (or_introl eq_refl) Hk) as [Hurl Hchildren].
    assert (Hnode : collect_bookmarks_recursively uuid4 nd [k] 0 st = Some st).
    { destruct nd as [t n u g da dm children]. simpl in Hchildren.
      cbn [collect_bookmarks_recursively]. simpl Nat.ltb. cbv iota.
      rewrite Hurl.
      destruct (type_is _ "folder"); [|reflexivity].
      destruct Hchildren as [-> | ->]; reflexivity. }
    rewrite Hnode. apply IH. intros k' nd' Hin. apply Hidle. now right.
  - apply IH. intros k' nd' Hin. apply Hidle. now right.
Qed.

Lemma cleared_root_idle (k : string) (nd : node) :
  is_chrome_root k = true ->
  type_is (snd (clear_root (k, nd))) "url" = type_is nd "url"
  /\ (node_children (snd (clear_root (k, nd))) = None
      \/ node_children (snd (clear_root (k, nd))) = Some []).
Proof.
  intros Hk. unfold clear_root. rewrite Hk.
  destruct nd as [t n u g da dm [children|]]; simpl; auto.
Qed.

End RunFrame.

(** X16.  A run that saves keeps the root containers and their order.  The
    destination container gets the built tree as its children; a
    recognized root container that has a children list gets the empty list;
    every other container, and every other field, is as it was loaded. *)
Theorem saved_roots_frame
        (uuid4 : nat -> string) (lower : string -> string)
        (bookmark_data d : document) (roots : list (string * node)) :
  doc_roots bookmark_data = Some roots ->
  run_saved (main uuid4 lower bookmark_data) = Some d ->
  exists saved tree,
    doc_roots d = Some saved
    /\ destination_children d = Some tree
    /\ map fst saved = map fst roots
    /\ forall k nd,
        dict_get k roots = Some nd ->
        dict_get k saved
        = Some (if String.eqb k DESTINATION_ROOT_NAME
                then set_children tree nd
                else if is_chrome_root k
                     then match node_children nd with
                          | Some _ => set_children [] nd
                          | None => nd
                          end
                     else nd).
Proof.
  intros Hroots Hsaved.
  apply RunMore.main_saved_document in Hsaved
    as (roots' & st & tree & calls & Hroots' & _ & _ & _ & Hhas & -> & _).
  assert (roots' = roots) by congruence. subst roots'.
  assert (Hhas' : dict_has DESTINATION_ROOT_NAME (clear_roots roots) = true)
    by now rewrite clear_roots_keys.
  exists (place_children tree (clear_roots roots)), tree.
  split; [reflexivity|].
  split; [now apply RunFacts.placed_children|].
  unfold place_children. unfold dict_has in Hhas'.
  destruct (dict_get DESTINATION_ROOT_NAME (clear_roots roots))
    as [destination|] eqn:Hdest; [|discriminate].
  split.
  - rewrite DictFacts.dict_set_keys. unfold dict_has. rewrite Hdest.
    apply RunMore.clear_roots_fst.
  - intros k nd Hget.
    destruct (String.eqb k DESTINATION_ROOT_NAME) eqn:Hk.
    + apply String.eqb_eq in Hk. subst k.
      rewrite RunFacts.dict_get_set.
      rewrite RunMore.clear_roots_get, Hget in Hdest.
      simpl in Hdest. inversion Hdest. reflexivity.
    + apply String.eqb_neq in Hk.
      rewrite DictFacts.dict_get_set_other by assumption.
      rewrite RunMore.clear_roots_get, Hget. simpl. unfold clear_root.
      destruct (is_chrome_root k); [|reflexivity].
      now destruct (node_children nd).
Qed.

Lemma saved_roots_frame_witness :
  exists saved tree,
    doc_roots basic_merge_saved = Some saved
    /\ destination_children basic_merge_saved = Some tree
    /\ map fst saved
       = map fst (basic_merge_roots "http://x" "first" "second")
    /\ forall k nd,
        dict_get k (basic_merge_roots "http://x" "first" "second") = Some nd ->
        dict_get k saved
        = Some (if String.eqb k DESTINATION_ROOT_NAME
                then set_children tree nd
                else if is_chrome_root k
                     then match node_children nd with
                          | Some _ => set_children [] nd
                          | None => nd
                          end
                     else nd).
Proof.
  apply (saved_roots_frame numbered_guid lower_ascii
           (basic_merge_document "http://x" "first" "second")
           basic_merge_saved
           (basic_merge_roots "http://x" "first" "second"));
    reflexivity.
Defined.

(** X17.  When no recognized root container is itself a URL entry, a second
    run on the saved document collects nothing and leaves that document as
    it is: the rebuilt tree lies under the destination container, which is
    not one of the containers the collector scans. *)
Theorem second_run_collects_nothing
        (uuid4 uuid4' : nat -> string) (lower lower' : string -> string)
        (bookmark_data d : document) (roots : list (string * node)) :
  doc_roots bookmark_data = Some roots ->
  (forall k nd, In (k, nd) roots -> is_chrome_root k = true ->
                type_is nd "url" = false) ->
  run_saved (main uuid4 lower bookmark_data) = Some d ->
  main uuid4' lower' d = Run NothingCollected d None.
Proof.
  intros Hroots Hfolders Hsaved.
  apply RunMore.main_saved_document in Hsaved
    as (roots' & st & tree & calls & Hroots' & Hne & _ & _ & Hhas & -> & _).
  assert (roots' = roots) by congruence. subst roots'.
  set (saved := place_children tree (clear_roots roots)).
  assert (Hsaved_ne : saved <> []).
  { unfold saved, place_children.
    destruct (dict_get DESTINATION_ROOT_NAME (clear_roots roots));
      [apply DictFacts.dict_set_not_empty|].
    destruct roots; [congruence | discriminate]. }
  assert (Hscan : scan_roots uuid4' saved initial_state = Some initial_state).
  { apply RunFrame.idle_scan. intros k nd Hin Hk.
    assert (Hcleared : In (k, nd) (clear_roots roots)).
    { unfold saved, place_children in Hin.
      destruct (dict_get DESTINATION_ROOT_NAME (clear_roots roots));
        [|exact Hin].
      apply DictFacts.dict_set_in in Hin as [[-> _] | Hin]; [|exact Hin].
      discriminate. }
    apply in_map_iff in Hcleared as ([k0 nd0] & Hclear & Hin0).
    pose proof (clear_root_key (k0, nd0)) as Hkey.
    rewrite Hclear in Hkey. simpl in Hkey. subst k0.
    destruct (RunFrame.cleared_root_idle k nd0 Hk) as [Htype Hchildren].
    rewrite Hclear in Htype, Hchildren. simpl in Htype, Hchildren.
    split; [|exact Hchildren].
    rewrite Htype. exact (Hfolders k nd0 Hin0 Hk). }
  unfold main. simpl doc_roots.
  destruct saved as [|r rs] eqn:Hsaved; [congruence|].
  rewrite Hscan. reflexivity.
Qed.

Lemma second_run_collects_nothing_witness :
  main numbered_guid lower_ascii basic_merge_saved
  = Run NothingCollected basic_merge_saved None.
Proof.
  apply (second_run_collects_nothing numbered_guid numbered_guid
           lower_ascii lower_ascii
           (basic_merge_document "http://x" "first" "second")
           basic_merge_saved
           (basic_merge_roots "http://x" "first" "second")).
  - reflexivity.
  - intros k nd [H | [H | [H | []]]] _; inversion H; reflexivity.
  - reflexivity.
Defined.

Module RunOutcomes.

Lemma scan_unrecognized (uuid4 : nat -> string)
      (roots : list (string * node)) :
  (forall k, In k (map fst roots) -> is_chrome_root k = false) ->
  forall st, scan_roots uuid4 roots st = Some st.
Proof.
  induction roots as [|[k nd] roots IH]; intros Hkeys st; [reflexivity|].
  cbn [scan_roots]. rewrite (Hkeys k (or_introl eq_refl)).
  apply IH. intros k' Hin. apply Hkeys. now right.
Qed.

End RunOutcomes.

(** X18.  The run hands a document to [save_bookmarks] exactly when it ends
    in success, and it is then the document object it holds in memory. *)
Theorem saves_exactly_on_success
        (uuid4 : nat -> string) (lower : string -> string)
        (bookmark_data d : document) :
  run_saved (main uuid4 lower bookmark_data) = Some d
  <-> run_outcome (main uuid4 lower bookmark_data) = Success
      /\ run_memory (main uuid4 lower bookmark_data) = d.
Proof.
  split.
  - intros Hsaved.
    apply RunMore.main_saved_document in Hsaved
      as (roots & st & tree & calls & _ & _ & _ & _ & _ & _ & ->).
    now split.
  - unfold main.
    destruct (doc_roots bookmark_data) as [[|r rs]|];
      try (intros [H _]; discriminate H).
    destruct (scan_roots uuid4 (r :: rs) initial_state) as [st|];
      [|intros [H _]; discriminate H].
    destruct (negb (truthy (collected_bookmarks st)));
      [intros [H _]; discriminate H|].
    destruct (build_chrome_json_structure uuid4 lower (collected_bookmarks st)
                (uuid_calls st)) as [[tree calls]|];
      [|intros [H _]; discriminate H].
    destruct (dict_has DESTINATION_ROOT_NAME (clear_roots (r :: rs)));
      [|intros [H _]; discriminate H].
    cbn [run_outcome run_memory run_saved]. intros [_ <-]. reflexivity.
Qed.

(** X19.  When no key of [roots] is one of the recognized root-marker
    names, nothing is scanned: the run stops with the loaded document
    unchanged and saves nothing, whatever the containers hold. *)
Theorem unrecognized_roots_collect_nothing
        (uuid4 : nat -> string) (lower : string -> string)
        (bookmark_data : document) (roots : list (string * node)) :
  doc_roots bookmark_data = Some roots ->
  roots <> [] ->
  (forall k, In k (map fst roots) -> is_chrome_root k = false) ->
  main uuid4 lower bookmark_data = Run NothingCollected bookmark_data None.
Proof.
  intros Hroots Hne Hkeys. unfold main. rewrite Hroots.
  destruct roots as [|r rs]; [congruence|].
  now rewrite (RunOutcomes.scan_unrecognized uuid4 (r :: rs) Hkeys).
Qed.

Lemma unrecognized_roots_collect_nothing_witness :
  let roots :=
    [("bookmark_bar", folder (Some "Bookmarks bar")
                             [url_entry "Example" "http://example.org"]);
     ("other", folder (Some "Other bookmarks")
                      [url_entry "Example" "http://example.org"]);
     ("synced", folder (Some "Mobile bookmarks") [])] in
  main numbered_guid lower_ascii (Document (Some roots))
  = Run NothingCollected (Document (Some roots)) None.
Proof.
  intros roots.
  apply (unrecognized_roots_collect_nothing numbered_guid lower_ascii
           (Document (Some roots)) roots).
  - reflexivity.
  - discriminate.
  - intros k [<- | [<- | [<- | []]]]; reflexivity.
Defined.
